(** * AI Music Studio: the compose-song job runner and the credit ledger

    A shallow embedding of
      - [server/index.cjs]: the route [app.post('/api/compose-song')] and the
        helper [callPythonProcessor], both of which spawn a Python worker,
        arm a timer and race it against the worker's [error] and [close]
        events;
      - [src/App.jsx]: [useCredit] and [handleCreateSongFromLyrics], which
        debit credits, call the route and refund on failure.

    JavaScript strings are sequences of UTF-16 code units, JavaScript values
    a small tagged union, the Node event loop a chronological schedule of
    child-process events, and React state updates a queue of updaters
    computed from the render's snapshot. What the platform decides
    ([JSON.parse], base64, whether [spawn] accepts its arguments, whether a
    file can be removed) is a parameter or a function of its own. *)

From Stdlib Require Import ZArith NArith Ascii String DecimalString.
From stdpp Require Import gmap list option.

Set Warnings "-register-all".
Local Open Scope Z_scope.

(** ** JavaScript strings *)

Module Js.

(** A string is its list of UTF-16 code units. *)
Abbreviation jsstring := (list N).

Definition lit (s : string) : jsstring :=
  map N_of_ascii (list_ascii_of_string s).

(** ECMAScript [WhiteSpace] and [LineTerminator] code points, the set
    stripped by [String.prototype.trim]. *)
Definition isWhiteSpace (c : N) : bool :=
  ((c =? 0x9) || (c =? 0xA) || (c =? 0xB) || (c =? 0xC) || (c =? 0xD)
   || (c =? 0x20) || (c =? 0xA0) || (c =? 0x1680)
   || ((0x2000 <=? c) && (c <=? 0x200A))
   || (c =? 0x2028) || (c =? 0x2029) || (c =? 0x202F) || (c =? 0x205F)
   || (c =? 0x3000) || (c =? 0xFEFF))%N.

Fixpoint trimStart (s : jsstring) : jsstring :=
  match s with
  | c :: rest => if isWhiteSpace c then trimStart rest else s
  | [] => []
  end.

Definition trimEnd (s : jsstring) : jsstring := rev (trimStart (rev s)).

Definition trim (s : jsstring) : jsstring := trimEnd (trimStart s).

(** Every code unit is white space (the empty string included). *)
Definition blank (s : jsstring) : bool := forallb isWhiteSpace s.

(** ** JavaScript values *)

(** A JavaScript number is a double. [JNum z] is the whole number [z],
    for [z] a safe integer: up to [MAX_SAFE_INTEGER] either side of zero a
    double holds every integer exactly and prints it digit for digit.
    [JDouble shown] is any other number, a fraction, a whole number beyond
    the safe range or an infinity; it is given by the text that
    [Number::toString] prints for it, such as [120.5] or [1e+21]. This
    program only tests such a number for truth, prints it and passes it on.
    [JNum z] with [z] beyond the safe range stands for no value of the
    program: see [numbers_safe]. An object is its ordered list of own
    properties. *)
Inductive jsval : Type :=
| JUndefined
| JNull
| JBool (b : bool)
| JNum (z : Z)
| JDouble (shown : jsstring)
| JNaN
| JStr (s : jsstring)
| JArr (items : list jsval)
| JObj (fields : list (string * jsval)).

(** [Number.MAX_SAFE_INTEGER], 2^53 - 1. *)
Definition MAX_SAFE_INTEGER : Z := 9007199254740991.

(** [Number.isSafeInteger]. *)
Definition safe_integer (z : Z) : bool := Z.abs z <=? MAX_SAFE_INTEGER.


(** The double nearest to the whole number [z], ties to the even
    significand: what an arithmetic operation returns when its exact result
    is [z]. Below 2^53 nothing is rounded; above, the low bits beyond the 53
    of the significand are. (Magnitudes of 2^1024 and more, which overflow
    to an infinity, are not covered.) *)
Definition to_double (z : Z) : Z :=
  let a := Z.abs z in
  let e := Z.log2 a - 52 in
  if e <=? 0 then z
  else
    let q := Z.shiftr a e in
    let r := a - Z.shiftl q e in
    let half := Z.shiftl 1 (e - 1) in
    let q' := if (half <? r) || ((r =? half) && Z.odd q) then q + 1 else q in
    Z.sgn z * Z.shiftl q' e.

(** [ToBoolean]. *)
Definition truthy (v : jsval) : bool :=
  match v with
  | JUndefined | JNull | JNaN => false
  | JBool b => b
  | JNum z => negb (z =? 0)
  | JDouble _ => true
  | JStr s => match s with [] => false | _ => true end
  | JArr _ | JObj _ => true
  end.

Definition of_Z (z : Z) : jsstring := lit (NilZero.string_of_int (Z.to_int z)).

Fixpoint join_comma (l : list jsstring) : jsstring :=
  match l with
  | [] => []
  | [x] => x
  | x :: rest => x ++ lit "," ++ join_comma rest
  end.

(** [String(v)]. A safe integer prints as its decimal digits. An array
    prints its items joined by commas, [undefined] and [null] items as
    nothing; a plain object prints as [[object Object]]. *)
Fixpoint String (v : jsval) : jsstring :=
  match v with
  | JUndefined => lit "undefined"
  | JNull => lit "null"
  | JBool true => lit "true"
  | JBool false => lit "false"
  | JNum z => of_Z z
  | JDouble shown => shown
  | JNaN => lit "NaN"
  | JStr s => s
  | JArr items =>
      join_comma (map (fun i => match i with
                                | JUndefined | JNull => []
                                | _ => String i
                                end) items)
  | JObj _ => lit "[object Object]"
  end.

Fixpoint assoc (k : string) (fields : list (string * jsval)) : jsval :=
  match fields with
  | [] => JUndefined
  | (k', v) :: rest => if String.eqb k k' then v else assoc k rest
  end.

(** Property read [v.k]: [None] is the TypeError raised on [undefined] and
    [null]; a primitive has none of the property names used here. *)
Definition get (k : string) (v : jsval) : option jsval :=
  match v with
  | JUndefined | JNull => None
  | JObj fields => Some (assoc k fields)
  | _ => Some JUndefined
  end.

(** [v.k] where [v] is already known not to be [undefined] or [null]. *)
Definition prop (k : string) (v : jsval) : jsval :=
  from_option id JUndefined (get k v).

(** Destructuring default [{ k = d }]: applies to [undefined] only. *)
Definition default (d v : jsval) : jsval :=
  match v with JUndefined => d | _ => v end.

(** [a || b]. *)
Definition or (a b : jsval) : jsval := if truthy a then a else b.

(** [v !== 0] for an exit code, [null] when the child died on a signal. *)
Definition code_nonzero (code : option Z) : bool :=
  match code with
  | Some 0 => false
  | _ => true
  end.

Definition String_code (code : option Z) : jsstring :=
  match code with
  | Some z => of_Z z
  | None => lit "null"
  end.

End Js.

Import Js.

(** ** The server: [server/index.cjs] *)

Module Server.

(** What the Python child does, as the event loop delivers it: chunks on
    its two pipes, an [error] event with [err.message], and [close] with
    the exit code ([None] for [null], a death by signal). *)
Inductive child_event : Type :=
| StdoutData (chunk : jsstring)
| StderrData (chunk : jsstring)
| ErrorEvent (message : jsstring)
| CloseEvent (code : option Z).

(** A schedule stamps each delivered event with its time in milliseconds
    since the spawn. *)
Abbreviation schedule := (list (Z * child_event)).

Definition ends_job (e : child_event) : bool :=
  match e with
  | ErrorEvent _ | CloseEvent _ => true
  | _ => false
  end.



(** Some [error] or [close] is stamped at or before [deadline]. *)
Definition ends_within (deadline : Z) (sched : schedule) : bool :=
  existsb (fun '(t, e) => ends_job e && (t <=? deadline)) sched.

(** The event loop around one child and one [setTimeout]: events are
    delivered in schedule order; an armed timer whose deadline has been
    reached runs before the next event; once the schedule is exhausted time
    still passes, so a timer left armed fires at its deadline. *)
Section EventLoop.

Context {S : Type}.
Variable deadline : Z.
Variable armed : S -> bool.
Variable fire : S -> S.
Variable handle : child_event -> S -> S.

Definition fire_if_due (now : Z) (s : S) : S :=
  if armed s && (deadline <=? now) then fire s else s.

Fixpoint dispatch (sched : schedule) (s : S) : S :=
  match sched with
  | [] => s
  | (t, e) :: rest => dispatch rest (handle e (fire_if_due t s))
  end.

Definition settle (s : S) : S := if armed s then fire s else s.

Definition run (sched : schedule) (s : S) : S := settle (dispatch sched s).

End EventLoop.

Record response : Type := { status : Z; body : jsval }.

(** [res.json(b)] answers 200, [res.status(n).json(b)] answers [n]. *)
Definition json (b : jsval) : response := {| status := 200; body := b |}.
Definition status_json (n : Z) (b : jsval) : response :=
  {| status := n; body := b |}.

Definition compose_timeout_ms : Z := 120000.
Definition processor_timeout_ms : Z := 60000.

(** The disk: path to file contents (bytes). *)
Abbreviation disk := (gmap (list N) (list N)).

(** [spawn] checks its arguments before it starts anything: an argument
    that is a string containing U+0000 makes it throw
    ERR_INVALID_ARG_VALUE. Arguments that are not strings are converted
    later, without this check. *)
Definition has_nul (v : jsval) : bool :=
  match v with
  | JStr s => existsb (N.eqb 0) s
  | _ => false
  end.

Definition spawn_throws (args : list jsval) : bool := existsb has_nul args.

Section Platform.

(** [JSON.parse]: the parsed value, or the SyntaxError's message. *)
Variable JSON_parse : jsstring -> jsstring + jsval.
(** [Buffer.prototype.toString('base64')]. *)
Variable toBase64 : list N -> jsstring.
(** [path.join(__dirname, '..', 'audio-processor', f)]. *)
Variable audio_processor_dir : jsstring.
(** The paths for which [fs.unlinkSync] throws although the file is there
    (EACCES, EPERM, EBUSY). *)
Variable unlink_fails : list N -> bool.

Definition AUDIO_PROCESSOR_PATH : jsstring :=
  audio_processor_dir ++ lit "/audio_processor.py".
Definition pythonScriptPath : jsstring :=
  audio_processor_dir ++ lit "/song_synthesizer.py".

(** *** [app.post('/api/compose-song')] *)

(** The closure state of one request. [sent] lists the calls of [res.json]
    in order; [spawned] holds the argument vector once [spawn] has been
    called, whether it returned a child or threw. *)
Record job : Type := {
  spawned : option (list jsval);
  stdoutData : jsstring;
  stderrData : jsstring;
  isResolved : bool;
  timerArmed : bool;
  timerFired : bool;
  killed : bool;
  sent : list response;
  files : disk
}.

Definition send (r : response) (j : job) : job :=
  {| spawned := spawned j; stdoutData := stdoutData j;
     stderrData := stderrData j; isResolved := isResolved j;
     timerArmed := timerArmed j; timerFired := timerFired j;
     killed := killed j; sent := sent j ++ [r]; files := files j |}.

Definition set_isResolved (j : job) : job :=
  {| spawned := spawned j; stdoutData := stdoutData j;
     stderrData := stderrData j; isResolved := true;
     timerArmed := timerArmed j; timerFired := timerFired j;
     killed := killed j; sent := sent j; files := files j |}.

Definition clearTimeout (j : job) : job :=
  {| spawned := spawned j; stdoutData := stdoutData j;
     stderrData := stderrData j; isResolved := isResolved j;
     timerArmed := false; timerFired := timerFired j;
     killed := killed j; sent := sent j; files := files j |}.

Definition kill (j : job) : job :=
  {| spawned := spawned j; stdoutData := stdoutData j;
     stderrData := stderrData j; isResolved := isResolved j;
     timerArmed := timerArmed j; timerFired := timerFired j;
     killed := true; sent := sent j; files := files j |}.

Definition append_stdout (d : jsstring) (j : job) : job :=
  {| spawned := spawned j; stdoutData := stdoutData j ++ d;
     stderrData := stderrData j; isResolved := isResolved j;
     timerArmed := timerArmed j; timerFired := timerFired j;
     killed := killed j; sent := sent j; files := files j |}.

Definition append_stderr (d : jsstring) (j : job) : job :=
  {| spawned := spawned j; stdoutData := stdoutData j;
     stderrData := stderrData j ++ d; isResolved := isResolved j;
     timerArmed := timerArmed j; timerFired := timerFired j;
     killed := killed j; sent := sent j; files := files j |}.

(** [fs.unlinkSync(p)] inside its own [try]: a failure is only logged, and
    the file stays. *)
Definition unlinkSync (p : list N) (j : job) : job :=
  {| spawned := spawned j; stdoutData := stdoutData j;
     stderrData := stderrData j; isResolved := isResolved j;
     timerArmed := timerArmed j; timerFired := timerFired j;
     killed := killed j; sent := sent j;
     files := if unlink_fails p then files j else delete p (files j) |}.

(** [fs.readFileSync(p)]: [None] when it throws (not a path, no file). *)
Definition readFileSync (d : disk) (p : jsval) : option (list N * list N) :=
  match p with
  | JStr path => match d !! path with
                 | Some bytes => Some (path, bytes)
                 | None => None
                 end
  | _ => None
  end.

Definition timeout_response : response :=
  status_json 500
    (JObj [("error"%string, JStr (lit "Song generation timeout"));
           ("message"%string, JStr (lit "Process took too long (120s)"))]).

Definition spawn_error_response (message : jsstring) : response :=
  status_json 500
    (JObj [("error"%string, JStr (lit "Failed to start song generator"));
           ("detail"%string, JStr message)]).

Definition synthesis_failed_response (stderr : jsstring) : response :=
  status_json 500
    (JObj [("error"%string, JStr (lit "Song synthesis failed"));
           ("stderr"%string, JStr stderr)]).

Definition parse_failed_response (stdout : jsstring) : response :=
  status_json 500
    (JObj [("error"%string, JStr (lit "Failed to parse synthesis result"));
           ("details"%string, JStr stdout)]).

Definition lyrics_required_response : response :=
  status_json 400 (JObj [("error"%string, JStr (lit "Lyrics required"))]).

Definition composition_failed_response (message : jsstring) : response :=
  status_json 500
    (JObj [("error"%string, JStr (lit "Song composition failed"));
           ("details"%string, JStr message)]).

(** The four destructured request fields, defaults applied. *)
Record request : Type := {
  lyrics : jsval; genre : jsval; tempo : jsval; key : jsval
}.

Definition success_response (rq : request) (result : jsval)
    (audioBase64 : jsstring) (structure : jsval) : response :=
  json
    (JObj [("success"%string, JBool true);
           ("message"%string, JStr (lit "Song generated successfully"));
           ("audio"%string, JStr audioBase64);
           ("metadata"%string, prop "metadata" result);
           ("sampleRate"%string, prop "sample_rate" result);
           ("duration"%string, prop "duration" result);
           ("composition"%string,
            JObj [("lyrics"%string, lyrics rq);
                  ("genre"%string, genre rq);
                  ("tempo"%string, tempo rq);
                  ("key"%string, key rq);
                  ("structure"%string, structure);
                  ("instruments"%string,
                   JArr [JStr (lit "Vocals"); JStr (lit "Drums");
                         JStr (lit "Bass"); JStr (lit "Synth Pad")]);
                  ("estimatedDuration"%string, prop "duration" result)])]).

(** The timer callback. *)
Definition on_timeout (j : job) : job :=
  if isResolved j then j
  else set_isResolved (send timeout_response (kill j)).

(** [python.on('error', ...)]. *)
Definition on_error (message : jsstring) (j : job) : job :=
  let j := clearTimeout j in
  if isResolved j then j
  else set_isResolved (send (spawn_error_response message) j).

(** The [try] block of the [close] listener; every [None] of a property
    read, of [JSON.parse] and of [readFileSync] is an exception that lands
    in [catch (parseErr)]. *)
Definition close_try (rq : request) (code : option Z) (j : job) : job :=
  if code_nonzero code then send (synthesis_failed_response (stderrData j)) j
  else
    let caught := send (parse_failed_response (stdoutData j)) in
    match JSON_parse (stdoutData j) with
    | inl _ => caught j
    | inr result =>
        match get "success" result with
        | None => caught j
        | Some success =>
            if truthy success && truthy (prop "audio_path" result) then
              match readFileSync (files j) (prop "audio_path" result) with
              | None => caught j
              | Some (path, audioData) =>
                  let j := unlinkSync path j in
                  match get "metadata" result ≫= get "structure" with
                  | None => caught j
                  | Some structure =>
                      send (success_response rq result (toBase64 audioData)
                              structure) j
                  end
              end
            else
              send (status_json 500
                      (JObj [("error"%string,
                              or (prop "error" result)
                                 (JStr (lit "Song synthesis failed")));
                             ("stderr"%string, JStr (stderrData j))])) j
        end
    end.

(** [python.on('close', ...)]. *)
Definition on_close (rq : request) (code : option Z) (j : job) : job :=
  let j := clearTimeout j in
  if isResolved j then j
  else close_try rq code (set_isResolved j).

Definition handle (rq : request) (e : child_event) (j : job) : job :=
  match e with
  | StdoutData d => append_stdout d j
  | StderrData d => append_stderr d j
  | ErrorEvent m => on_error m j
  | CloseEvent code => on_close rq code j
  end.

(** The timer is one-shot: firing disarms it and runs the callback. *)
Definition fire (j : job) : job :=
  on_timeout
    {| spawned := spawned j; stdoutData := stdoutData j;
       stderrData := stderrData j; isResolved := isResolved j;
       timerArmed := false; timerFired := true;
       killed := killed j; sent := sent j; files := files j |}.

Definition destructure (body : jsval) : option request :=
  l ← get "lyrics" body;
  g ← get "genre" body;
  t ← get "tempo" body;
  k ← get "key" body;
  Some {| lyrics := l;
          genre := default (JStr (lit "pop")) g;
          tempo := default (JNum 120) t;
          key := default (JStr (lit "C major")) k |}.

(** [!lyrics || !lyrics.trim()]: [None] is the TypeError of calling
    [trim] on a truthy value that is not a string. *)
Definition lyrics_missing (l : jsval) : option bool :=
  if negb (truthy l) then Some true
  else match l with
       | JStr s => Some (negb (truthy (JStr (trim s))))
       | _ => None
       end.

Definition spawn_args (rq : request) : list jsval :=
  [JStr pythonScriptPath; JStr (lit "generate"); lyrics rq; genre rq;
   JStr (String (tempo rq)); key rq].

Definition idle (d : disk) : job :=
  {| spawned := None; stdoutData := []; stderrData := [];
     isResolved := false; timerArmed := false; timerFired := false;
     killed := false; sent := []; files := d |}.

(** The state right after [spawn] and [setTimeout]. *)
Definition running (rq : request) (d : disk) : job :=
  {| spawned := Some (spawn_args rq); stdoutData := []; stderrData := [];
     isResolved := false; timerArmed := true; timerFired := false;
     killed := false; sent := []; files := d |}.

(** The state when [spawn] throws. The throw ends the executor of the
    promise before [setTimeout] runs and before a listener is attached, so
    there is no child and no timer. The promise is rejected, but the
    handler returns it from inside its [try] without [await]: its [catch]
    does not run and nothing is sent. *)
Definition stranded (rq : request) (d : disk) : job :=
  {| spawned := Some (spawn_args rq); stdoutData := []; stderrData := [];
     isResolved := false; timerArmed := false; timerFired := false;
     killed := false; sent := []; files := d |}.

Definition type_error_message : jsstring := lit "lyrics.trim is not a function".
Definition destructure_error_message : jsstring :=
  lit "Cannot destructure property 'lyrics' of 'req.body' as it is undefined.".

(** The route handler followed by everything the event loop later runs
    for this request. *)
Definition compose_song (body : jsval) (d : disk) (sched : schedule) : job :=
  match destructure body with
  | None => send (composition_failed_response destructure_error_message) (idle d)
  | Some rq =>
      match lyrics_missing (lyrics rq) with
      | None => send (composition_failed_response type_error_message) (idle d)
      | Some true => send lyrics_required_response (idle d)
      | Some false =>
          if spawn_throws (spawn_args rq) then stranded rq d
          else
            run compose_timeout_ms timerArmed fire (handle rq) sched
              (running rq d)
      end
  end.

(** *** [callPythonProcessor]

    Its callers pass a literal command, the path multer gave the upload and
    ['-14'] or a path under [/tmp]: strings without U+0000, on which
    [spawn] does not throw. *)

(** How the returned promise was settled; [settled] lists the calls of
    [resolve] and [reject] in order. *)
Inductive settlement : Type :=
| Resolved (result : jsval)
| Rejected (message : jsstring).

Record call : Type := {
  argv : list jsval;
  stdout : jsstring;
  stderr : jsstring;
  callResolved : bool;
  callArmed : bool;
  callFired : bool;
  callKilled : bool;
  settled : list settlement
}.

Definition call_clearTimeout (c : call) : call :=
  {| argv := argv c; stdout := stdout c; stderr := stderr c;
     callResolved := callResolved c; callArmed := false;
     callFired := callFired c; callKilled := callKilled c;
     settled := settled c |}.

(** [resolve(v)] or [reject(e)], with [isResolved = true] next to it. *)
Definition finish (o : settlement) (c : call) : call :=
  {| argv := argv c; stdout := stdout c; stderr := stderr c;
     callResolved := true; callArmed := callArmed c;
     callFired := callFired c; callKilled := callKilled c;
     settled := settled c ++ [o] |}.

Definition call_kill (c : call) : call :=
  {| argv := argv c; stdout := stdout c; stderr := stderr c;
     callResolved := callResolved c; callArmed := callArmed c;
     callFired := callFired c; callKilled := true;
     settled := settled c |}.

Definition call_timeout_error : settlement :=
  Rejected (lit "Python process timeout (60s)").

Definition call_on_timeout (c : call) : call :=
  if callResolved c then c else finish call_timeout_error (call_kill c).

Definition call_on_error (message : jsstring) (c : call) : call :=
  let c := call_clearTimeout c in
  if callResolved c then c
  else finish (Rejected (lit "Python spawn error: " ++ message)) c.

Definition call_on_close (code : option Z) (c : call) : call :=
  let c := call_clearTimeout c in
  if callResolved c then c
  else if code_nonzero code then
    finish (Rejected (lit "Python process failed (code " ++ String_code code
                      ++ lit "): " ++ stderr c)) c
  else match JSON_parse (stdout c) with
       | inr result => finish (Resolved result) c
       | inl message =>
           finish (Rejected (lit "Failed to parse Python output: " ++ message)) c
       end.

Definition call_handle (e : child_event) (c : call) : call :=
  match e with
  | StdoutData d =>
      {| argv := argv c; stdout := stdout c ++ d; stderr := stderr c;
         callResolved := callResolved c; callArmed := callArmed c;
         callFired := callFired c; callKilled := callKilled c;
         settled := settled c |}
  | StderrData d =>
      {| argv := argv c; stdout := stdout c; stderr := stderr c ++ d;
         callResolved := callResolved c; callArmed := callArmed c;
         callFired := callFired c; callKilled := callKilled c;
         settled := settled c |}
  | ErrorEvent m => call_on_error m c
  | CloseEvent code => call_on_close code c
  end.

Definition call_fire (c : call) : call :=
  call_on_timeout
    {| argv := argv c; stdout := stdout c; stderr := stderr c;
       callResolved := callResolved c; callArmed := false;
       callFired := true; callKilled := callKilled c;
       settled := settled c |}.

Definition call_running (command audioPath : jsval) (args : list jsval) : call :=
  {| argv := JStr AUDIO_PROCESSOR_PATH :: command :: audioPath :: args;
     stdout := []; stderr := [];
     callResolved := false; callArmed := true; callFired := false;
     callKilled := false; settled := [] |}.

Definition callPythonProcessor (command audioPath : jsval) (args : list jsval)
    (sched : schedule) : call :=
  run processor_timeout_ms callArmed call_fire call_handle sched
    (call_running command audioPath args).

(** *** Observations on a run *)

(** The request passed validation and [rq] holds its four fields. *)
Definition accepted (reqBody : jsval) (rq : request) : Prop :=
  destructure reqBody = Some rq /\ lyrics_missing (lyrics rq) = Some false.

(** The tempo argument handed to the worker. *)
Definition worker_tempo (j : job) : option jsval :=
  args ← spawned j; args !! 4%nat.

(** A job still waiting for its child, with the text captured so far. *)
Definition capturing (rq : request) (d : disk) (out err : jsstring) : job :=
  {| spawned := Some (spawn_args rq); stdoutData := out; stderrData := err;
     isResolved := false; timerArmed := true; timerFired := false;
     killed := false; sent := []; files := d |}.

Definition pending (rq : request) (d : disk) (j : job) : Prop :=
  exists out err, j = capturing rq d out err.

(** TimedOut: the timer ran, killed the child and answered. *)
Definition timed_out (d : disk) (j : job) : Prop :=
  isResolved j = true /\ timerArmed j = false /\ timerFired j = true
  /\ killed j = true /\ sent j = [timeout_response] /\ files j = d.

(** The job ended on an [error] or [close] with the timer disarmed and
    never run. *)
Definition ended_early (j : job) : Prop :=
  isResolved j = true /\ timerArmed j = false /\ timerFired j = false
  /\ killed j = false /\ exists r, sent j = [r] /\ r <> timeout_response.

(** Two job states that differ at most in the text captured so far. *)
Definition same_outcome (j j' : job) : Prop :=
  spawned j' = spawned j /\ isResolved j' = isResolved j
  /\ timerArmed j' = timerArmed j /\ timerFired j' = timerFired j
  /\ killed j' = killed j /\ sent j' = sent j /\ files j' = files j.

Definition settled_as (j0 j : job) : Prop :=
  isResolved j0 = true /\ timerArmed j0 = false /\ same_outcome j0 j.

(** The invariant of the race: the request is resolved exactly when the
    timer is no longer armed, and resolving it is what sends the one
    response. *)
Definition raced (j : job) : Prop :=
  isResolved j = negb (timerArmed j)
  /\ length (sent j) = (if isResolved j then 1 else 0)%nat.

Definition call_pending (c : call) : Prop :=
  callResolved c = false /\ callArmed c = true /\ callFired c = false
  /\ callKilled c = false /\ settled c = [].

Definition call_timed_out (c : call) : Prop :=
  callResolved c = true /\ callArmed c = false /\ callFired c = true
  /\ callKilled c = true /\ settled c = [call_timeout_error].


End Platform.

(** The text a schedule writes on each pipe. *)
Fixpoint stdout_of (sched : schedule) : jsstring :=
  match sched with
  | [] => []
  | (_, StdoutData chunk) :: rest => chunk ++ stdout_of rest
  | _ :: rest => stdout_of rest
  end.

Fixpoint stderr_of (sched : schedule) : jsstring :=
  match sched with
  | [] => []
  | (_, StderrData chunk) :: rest => chunk ++ stderr_of rest
  | _ :: rest => stderr_of rest
  end.

(** Only pipe events, all stamped before [deadline]. *)
Definition data_before (deadline : Z) (sched : schedule) : bool :=
  forallb (fun '(t, e) => negb (ends_job e) && (t <? deadline)) sched.

End Server.

(** ** The frontend: [src/App.jsx] *)

Module Client.

(** The part of the component state that [useCredit] and
    [handleCreateSongFromLyrics] read or write. Credits are whole numbers:
    the app starts at 5 and only ever adds or subtracts 1, 2, 5 or 50. The
    balance is a double all the same, read back from [localStorage] with
    [Number]: [apply_update] computes on the integers, which is the
    arithmetic of the program as long as the balance is a safe integer
    ([to_double_safe]); [debited] is the updater of [useCredit] on any
    whole-number balance. *)
Record AppState : Type := {
  credits : Z;
  lyricsResult : jsstring;
  isPaywallOpen : bool;
  audioFile : jsval;
  history : list jsval;
  songGenre : jsstring;
  songTempo : jsstring;
  songKey : jsstring;
  isComposing : bool;
  useOriginalLyrics : bool;
  originalLyrics : jsstring;
  generatedSong : jsval;
  generatedAudioUrl : jsval;
  showSongEditor : bool
}.

(** A state setter call. [SetCredits delta] is the functional updater
    [setCredits(c => c + delta)], [SetHistory e] is
    [setHistory(h => [e, ...h])]; the others set a value. *)
Inductive update : Type :=
| SetCredits (delta : Z)
| SetIsPaywallOpen (b : bool)
| SetIsComposing (b : bool)
| SetGeneratedSong (v : jsval)
| SetGeneratedAudioUrl (v : jsval)
| SetAudioFile (v : jsval)
| SetShowSongEditor (b : bool)
| SetHistory (entry : jsval).

(** What a handler does, in program order. *)
Inductive action : Type :=
| Update (u : update)
| Alert (message : jsstring)
| Fetch (url : jsstring) (body : jsval)
| ConsoleError (message : jsstring).

Definition apply_update (u : update) (st : AppState) : AppState :=
  {| credits := match u with SetCredits d => credits st + d | _ => credits st end;
     lyricsResult := lyricsResult st;
     isPaywallOpen :=
       match u with SetIsPaywallOpen b => b | _ => isPaywallOpen st end;
     audioFile := match u with SetAudioFile v => v | _ => audioFile st end;
     history := match u with SetHistory e => e :: history st | _ => history st end;
     songGenre := songGenre st;
     songTempo := songTempo st;
     songKey := songKey st;
     isComposing := match u with SetIsComposing b => b | _ => isComposing st end;
     useOriginalLyrics := useOriginalLyrics st;
     originalLyrics := originalLyrics st;
     generatedSong :=
       match u with SetGeneratedSong v => v | _ => generatedSong st end;
     generatedAudioUrl :=
       match u with SetGeneratedAudioUrl v => v | _ => generatedAudioUrl st end;
     showSongEditor :=
       match u with SetShowSongEditor b => b | _ => showSongEditor st end |}.

(** React applies the queued updaters in order. *)
Fixpoint commit (acts : list action) (st : AppState) : AppState :=
  match acts with
  | [] => st
  | Update u :: rest => commit rest (apply_update u st)
  | _ :: rest => commit rest st
  end.

Definition is_refund (a : action) : bool :=
  match a with
  | Update (SetCredits d) => 0 <? d
  | _ => false
  end.

Definition is_debit (a : action) : bool :=
  match a with
  | Update (SetCredits d) => d <? 0
  | _ => false
  end.

Definition is_fetch (a : action) : bool :=
  match a with
  | Fetch _ _ => true
  | _ => false
  end.

Definition count (p : action -> bool) (acts : list action) : nat :=
  length (List.filter p acts).

Definition lyricsToUse (snap : AppState) : jsstring :=
  if useOriginalLyrics snap then originalLyrics snap else lyricsResult snap.

(** [useCredit(amount)]: the test reads the render's [credits], the
    debit is queued as an updater. *)
Definition useCredit (snap : AppState) (amount : Z) : bool * list action :=
  if amount <=? credits snap then (true, [Update (SetCredits (- amount))])
  else (false, []).

(** What the updater [c => c - amount] returns on a whole-number balance
    [c]: the double nearest to the difference. *)
Definition debited (c amount : Z) : Z := to_double (c - amount).

(** [useCredit()] with its default argument. *)
Definition useCredit_default (snap : AppState) : bool * list action :=
  useCredit snap 1.

(** [parseInt(s)] without a radix: leading white space, a sign, an
    optional [0x], then the longest run of digits. The result is the value
    of the digits; it is what the program computes when that value is a
    safe integer (beyond, the program gets the nearest double). *)
Definition digit_value (c : N) : option Z :=
  if ((48 <=? c) && (c <=? 57))%N then Some (Z.of_N c - 48)
  else if ((97 <=? c) && (c <=? 122))%N then Some (Z.of_N c - 87)
  else if ((65 <=? c) && (c <=? 90))%N then Some (Z.of_N c - 55)
  else None.

Fixpoint digits (radix : Z) (s : jsstring) (acc : option Z) : option Z :=
  match s with
  | [] => acc
  | c :: rest =>
      match digit_value c with
      | Some d =>
          if d <? radix
          then digits radix rest (Some (from_option id 0 acc * radix + d))
          else acc
      | None => acc
      end
  end.

Definition parseInt (s : jsstring) : jsval :=
  let s := trimStart s in
  let '(negative, s) :=
    match s with
    | 45%N :: r => (true, r)
    | 43%N :: r => (false, r)
    | _ => (false, s)
    end in
  let '(radix, s) :=
    match s with
    | 48%N :: 120%N :: r => (16, r)
    | 48%N :: 88%N :: r => (16, r)
    | _ => (10, s)
    end in
  match digits radix s None with
  | None => JNaN
  | Some v => JNum (if negative : bool then - v else v)
  end.

(** [JSON.stringify] writes NaN as [null]. *)
Definition stringify_number (v : jsval) : jsval :=
  match v with JNaN => JNull | _ => v end.

Record exn : Type := { name : jsstring; message : jsstring }.

(** What the network delivers for one [fetch], stamped in milliseconds
    since the call: a response with its status and body text, or a failure
    of the request. *)
Inductive net_event : Type :=
| Responded (status : Z) (text : jsstring)
| Failed (message : jsstring).

Definition abort_after_ms : Z := 130000.

Definition abort_error : exn :=
  {| name := lit "AbortError"; message := lit "The user aborted a request." |}.

(** [await fetch(..., { signal })] against the 130 s abort timer: the
    promise settles once, with whichever comes first; the [finally] then
    clears the timer. Anything delivered later is dropped. *)
Definition await_fetch (net : list (Z * net_event)) : exn + (Z * jsstring) :=
  match net with
  | (t, e) :: _ =>
      if abort_after_ms <=? t then inl abort_error
      else match e with
           | Responded status text => inr (status, text)
           | Failed m => inl {| name := lit "TypeError"; message := m |}
           end
  | [] => inl abort_error
  end.

(** [res.ok]. *)
Definition ok (status : Z) : bool := (200 <=? status) && (status <=? 299).

Definition compose_url : jsstring := lit "http://localhost:3000/api/compose-song".

Definition newline : jsstring := [10%N].
Definition bullet : jsstring := [0x2022%N].

Section Platform.

Variable JSON_parse : jsstring -> jsstring + jsval.
(** [atob]: [None] when it throws InvalidCharacterError. *)
Variable atob : jsstring -> option jsstring.
(** [URL.createObjectURL(new Blob([bytes], ...))]. *)
Variable createObjectURL : jsstring -> jsstring.

(** The message of the [Error] thrown for a response that is not ok. *)
Definition http_error_message (status : Z) (text : jsstring) : jsval :=
  let fallback := JStr (lit "Server error (" ++ of_Z status ++ lit ")") in
  match JSON_parse text with
  | inl _ => fallback
  | inr err =>
      match get "error" err with
      | None => fallback
      | Some e => or e (or (prop "message" err) (JStr (lit "Composition failed")))
      end
  end.

Definition success_alert (data : jsval) : jsstring :=
  let modelInfo :=
    if truthy (prop "model" data)
    then newline ++ newline ++ [0xD83E%N; 0xDD16%N] ++ lit " Generated with: "
         ++ String (prop "model" data)
    else [] in
  [0xD83C%N; 0xDFB5%N] ++ lit " Song generated successfully!" ++ modelInfo
  ++ newline ++ newline ++ lit "You can now:"
  ++ newline ++ bullet ++ lit " Play and listen"
  ++ newline ++ bullet ++ lit " Apply audio effects"
  ++ newline ++ bullet ++ lit " Analyze and master"
  ++ newline ++ bullet ++ lit " Download the track".

(** The [try] block after the [fetch] has settled: the exception that
    leaves it, or the actions of a run that reaches its end. *)
Definition try_block (snap : AppState) (now : Z) (net : list (Z * net_event))
    : exn + list action :=
  match await_fetch net with
  | inl e => inl e
  | inr (status, text) =>
      if negb (ok status) then
        inl {| name := lit "Error";
               message := String (http_error_message status text) |}
      else
        match JSON_parse text with
        | inl m => inl {| name := lit "SyntaxError"; message := m |}
        | inr data =>
            match get "audio" data with
            | None =>
                inl {| name := lit "TypeError";
                       message := lit "Cannot read properties of null (reading 'audio')" |}
            | Some audio =>
                match atob (String audio) with
                | None =>
                    inl {| name := lit "InvalidCharacterError";
                           message := lit "The string to be decoded is not correctly encoded." |}
                | Some binaryString =>
                    let audioUrl := JStr (createObjectURL binaryString) in
                    inr [Update (SetGeneratedSong data);
                         Update (SetGeneratedAudioUrl audioUrl);
                         Update (SetAudioFile audioUrl);
                         Update (SetShowSongEditor true);
                         Update (SetHistory
                           (JObj [("type"%string, JStr (lit "composed"));
                                  ("genre"%string, JStr (songGenre snap));
                                  ("tempo"%string, JStr (songTempo snap));
                                  ("key"%string, JStr (songKey snap));
                                  ("time"%string, JNum now)]));
                         Alert (success_alert data)]
                end
            end
        end
  end.

(** The [catch] block. *)
Definition catch_block (err : exn) : list action :=
  let errorMsg :=
    if bool_decide (name err = lit "AbortError") then
      lit "Request timeout - song generation took too long. Please try again."
    else if truthy (JStr (message err)) then
      lit "Song generation failed: " ++ message err
    else lit "Song generation failed" in
  [ConsoleError (message err); Alert errorMsg; Update (SetCredits 2)].

Definition compose_body (snap : AppState) (lyricsToUse : jsstring) : jsval :=
  JObj [("lyrics"%string, JStr lyricsToUse);
        ("genre"%string, JStr (songGenre snap));
        ("tempo"%string, stringify_number (parseInt (songTempo snap)));
        ("key"%string, JStr (songKey snap))].

(** [handleCreateSongFromLyrics], run on the render [snap] at time [now]
    against what the network then delivers. *)
Definition handleCreateSongFromLyrics (snap : AppState) (now : Z)
    (net : list (Z * net_event)) : list action :=
  let lyricsToUse := lyricsToUse snap in
  if negb (truthy (JStr (trim lyricsToUse))) then
    [Alert (lit "Add lyrics first (generate or paste)")]
  else
    let '(debited, acts) := useCredit snap 2 in
    if negb debited then acts ++ [Update (SetIsPaywallOpen true)]
    else
      acts
      ++ [Update (SetIsComposing true);
          Fetch compose_url (compose_body snap lyricsToUse)]
      ++ match try_block snap now net with
         | inr done => done
         | inl err => catch_block err
         end
      ++ [Update (SetIsComposing false)].

(** The job ended Completed: the [try] block ran to its end. *)
Definition completed (snap : AppState) (now : Z) (net : list (Z * net_event))
    : bool :=
  match try_block snap now net with
  | inr _ => true
  | inl _ => false
  end.

End Platform.

End Client.

(** ** A concrete platform

    The theorems below hold for every [JSON.parse], [atob] and base64
    encoder, and whichever files [fs.unlinkSync] fails on. To run the model
    on examples, this module fixes small ones: a parser that knows a
    handful of documents, identity encoders, a disk where every file may
    be removed (and, for contrast, one where none may). *)

Module Sample.

Definition song_path : list N := lit "/tmp/song_1.wav".
Definition song_bytes : list N := lit "RIFF".

Definition good_result : jsval :=
  JObj [("success"%string, JBool true);
        ("audio_path"%string, JStr song_path);
        ("sample_rate"%string, JNum 44100);
        ("duration"%string, JNum 20);
        ("metadata"%string,
         JObj [("structure"%string, JArr [JStr (lit "Intro"); JStr (lit "Outro")])])].

Definition good_payload : jsval :=
  JObj [("success"%string, JBool true); ("audio"%string, JStr (lit "UklGRg=="))].

Definition documents : list (jsstring * jsval) :=
  [(lit "GOOD", good_result);
   (lit "PAYLOAD", good_payload);
   (lit "{}", JObj []);
   (lit "null", JNull)].

Fixpoint lookup_document (s : jsstring) (table : list (jsstring * jsval))
    : jsstring + jsval :=
  match table with
  | [] => inl (lit "Unexpected token")
  | (text, v) :: rest =>
      if bool_decide (s = text) then inr v else lookup_document s rest
  end.

Definition JSON_parse (s : jsstring) : jsstring + jsval :=
  lookup_document s documents.

Definition toBase64 (bytes : list N) : jsstring := bytes.

Definition atob (s : jsstring) : option jsstring :=
  if (Z.of_nat (length s) mod 4 =? 0) then Some s else None.

Definition createObjectURL (bytes : jsstring) : jsstring := lit "blob:" ++ bytes.

Definition dir : jsstring := lit "/app/audio-processor".

(** Every file may be removed. *)
Definition unlink_fails (p : list N) : bool := false.

Definition compose_song :=
  Server.compose_song JSON_parse toBase64 dir unlink_fails.
(** The same route where no file may be removed. *)
Definition compose_song_sealed :=
  Server.compose_song JSON_parse toBase64 dir (fun _ => true).
Definition callPythonProcessor := Server.callPythonProcessor JSON_parse dir.
Definition handleCreateSongFromLyrics :=
  Client.handleCreateSongFromLyrics JSON_parse atob createObjectURL.

Definition request_body (lyrics : jsstring) (tempo : jsval) : jsval :=
  JObj [("lyrics"%string, JStr lyrics); ("genre"%string, JStr (lit "pop"));
        ("tempo"%string, tempo); ("key"%string, JStr (lit "C major"))].

Definition snapshot (balance : Z) (lyrics tempo : jsstring) : Client.AppState :=
  {| Client.credits := balance;
     Client.lyricsResult := lyrics;
     Client.isPaywallOpen := false;
     Client.audioFile := JNull;
     Client.history := [];
     Client.songGenre := lit "pop";
     Client.songTempo := tempo;
     Client.songKey := lit "C major";
     Client.isComposing := false;
     Client.useOriginalLyrics := false;
     Client.originalLyrics := [];
     Client.generatedSong := JNull;
     Client.generatedAudioUrl := JNull;
     Client.showSongEditor := false |}.

(** A request that passes validation, and its destructured fields. *)
Definition body_ok : jsval := request_body (lit "la") (JNum 120).

Definition rq_ok : Server.request :=
  {| Server.lyrics := JStr (lit "la"); Server.genre := JStr (lit "pop");
     Server.tempo := JNum 120; Server.key := JStr (lit "C major") |}.


(** A request whose lyrics hold U+0000 between two letters. *)
Definition body_nul : jsval := request_body [97; 0; 98]%N (JNum 120).

Definition rq_nul : Server.request :=
  {| Server.lyrics := JStr [97; 0; 98]%N; Server.genre := JStr (lit "pop");
     Server.tempo := JNum 120; Server.key := JStr (lit "C major") |}.


Definition disk_with_song : gmap (list N) (list N) := {[song_path := song_bytes]}.

(** Pipe traffic of a worker that prints the good result in two chunks
    and a warning on stderr; of one that prints a traceback instead. *)
Definition pipes : list (Z * Server.child_event) :=
  [(10, Server.StdoutData (lit "GO")); (20, Server.StderrData (lit "boom"));
   (25, Server.StdoutData (lit "OD"))].

Definition garbage : list (Z * Server.child_event) :=
  [(10, Server.StdoutData (lit "Traceback"))].

Definition fast_worker : list (Z * Server.child_event) :=
  pipes ++ [(500, Server.CloseEvent (Some 0))].

Definition slow_worker : list (Z * Server.child_event) :=
  pipes ++ [(130000, Server.CloseEvent (Some 0))].

Definition crashing_worker : list (Z * Server.child_event) :=
  pipes ++ [(30, Server.CloseEvent (Some 1))].


(** Network deliveries: a 500 with an empty object, and a good payload
    followed by a late failure. *)
Definition net_error : list (Z * Client.net_event) :=
  [(5, Client.Responded 500 (lit "{}")); (9, Client.Failed (lit "late"))].

Definition net_good : list (Z * Client.net_event) :=
  [(5, Client.Responded 200 (lit "PAYLOAD"))].

End Sample.

From Stdlib Require DecimalZ.

(** ** More of JavaScript *)

Module JsMore.

Definition nl : jsstring := [10%N].

(** Lines joined by a line feed, as a template literal spells them. *)
Fixpoint lines (l : list jsstring) : jsstring :=
  match l with
  | [] => []
  | [x] => x
  | x :: rest => x ++ nl ++ lines rest
  end.

(** [v.slice(0, 50)]: strings and arrays have the method; on any other
    value the call is a TypeError, [None]. *)
Definition slice50 (v : jsval) : option jsval :=
  match v with
  | JStr s => Some (JStr (take 50 s))
  | JArr items => Some (JArr (take 50 items))
  | _ => None
  end.

(** [v[0]] on a value that is not [undefined] or [null]. *)
Definition index0 (v : jsval) : jsval :=
  match v with
  | JArr (x :: _) => x
  | JStr (c :: _) => JStr [c]
  | JObj fields => assoc "0" fields
  | _ => JUndefined
  end.

(** [v?.k]. *)
Definition chain (k : string) (v : jsval) : jsval :=
  match v with
  | JUndefined | JNull => JUndefined
  | _ => prop k v
  end.

(** [res.ok]. *)
Definition ok (status : Z) : bool := (200 <=? status) && (status <=? 299).

(** What [JSON.parse(JSON.stringify(v))] returns: a property whose value
    is [undefined] is dropped, an [undefined] array item, NaN and the
    infinities become [null]. *)
Fixpoint wire (v : jsval) : jsval :=
  match v with
  | JNaN => JNull
  | JDouble shown =>
      if bool_decide (shown = lit "Infinity")
         || bool_decide (shown = lit "-Infinity")
      then JNull else v
  | JArr items =>
      JArr (map (fun i => match i with
                          | JUndefined => JNull
                          | _ => wire i
                          end) items)
  | JObj fields =>
      JObj ((fix strip (l : list (string * jsval)) : list (string * jsval) :=
               match l with
               | [] => []
               | (k, JUndefined) :: rest => strip rest
               | (k, x) :: rest => (k, wire x) :: strip rest
               end) fields)
  | _ => v
  end.

End JsMore.

Import JsMore.

(** ** The other routes of [server/index.cjs] *)

Module Routes.

Import Server.

(** *** The CORS middleware *)

Definition is_digit (c : N) : bool := ((48 <=? c) && (c <=? 57))%N.

Fixpoint strip_prefix (prefix s : jsstring) : option jsstring :=
  match prefix, s with
  | [], _ => Some s
  | p :: prefix', c :: s' => if (p =? c)%N then strip_prefix prefix' s' else None
  | _ :: _, [] => None
  end.

(** [origin.match(/^http:\/\/localhost:\d+$/)]. *)
Definition localhost_origin (origin : jsstring) : bool :=
  match strip_prefix (lit "http://localhost:") origin with
  | Some port => match port with [] => false | _ => forallb is_digit port end
  | None => false
  end.

(** [process.env.FRONTEND_URL || 'http://localhost:5173']. *)
Definition FRONTEND_URL (env : option jsstring) : jsstring :=
  match env with
  | Some (c :: url) => c :: url
  | _ => lit "http://localhost:5173"
  end.

Record cors_result : Type := {
  headers : list (string * jsstring);
  sendStatus : option Z;
  next : bool
}.

(** The first [app.use]: [origin] is the request's [Origin] header, if
    any. *)
Definition cors (env : option jsstring) (origin : option jsstring)
    (method : jsstring) : cors_result :=
  let allowed :=
    match origin with
    | Some o => if truthy (JStr o) && localhost_origin o then o else FRONTEND_URL env
    | None => FRONTEND_URL env
    end in
  let hs :=
    [("Access-Control-Allow-Origin"%string, allowed);
     ("Access-Control-Allow-Methods"%string, lit "GET, POST, PUT, DELETE, OPTIONS");
     ("Access-Control-Allow-Headers"%string,
      lit "Content-Type, Authorization, stripe-signature")] in
  if bool_decide (method = lit "OPTIONS")
  then {| headers := hs; sendStatus := Some 200; next := false |}
  else {| headers := hs; sendStatus := None; next := true |}.

Definition allow_origin (r : cors_result) : option jsstring :=
  snd <$> List.find (fun h => String.eqb (fst h) "Access-Control-Allow-Origin")
            (headers r).

Section Platform.

Variable JSON_parse : jsstring -> jsstring + jsval.
Variable dir : jsstring.

(** *** [app.post('/api/generate-lyrics')] *)

(** What the call to the completion service comes to: [fetch] rejects
    (with [String(err)]), or a reply arrives with its status and body.
    [r.json()] of node-fetch wraps the message of a failed [JSON.parse] in
    a FetchError that names the URL. *)
Inductive upstream : Type :=
| UpstreamThrew (shown : jsstring)
| UpstreamReplied (status : Z) (text : jsstring).

Record lyrics_served : Type := {
  lyrics_answers : list response;
  asked : option jsval
}.

Definition default_prompt : jsval :=
  JStr (lit "Write a joyful pop chorus about sunrise.").

Definition mock_lyrics (head : jsstring) : jsstring :=
  lines [lit "[Verse 1]"; head;
         lit "Walking down this road alone";
         lit "Trying to find my way back home";
         lit "Every step I take, I know";
         lit "That your love will guide me so";
         [];
         lit "[Chorus]";
         lit "We're dancing in the moonlight";
         lit "Feeling so alive tonight";
         lit "Hearts beating as one";
         lit "Until the morning sun";
         [];
         lit "[Verse 2]";
         lit "Through the highs and all the lows";
         lit "You're the one my heart still knows";
         lit "When the world feels cold and grey";
         lit "Your smile lights up my way";
         [];
         lit "[Chorus]";
         lit "We're dancing in the moonlight";
         lit "Feeling so alive tonight";
         lit "Hearts beating as one";
         lit "Until the morning sun"].

Definition short_mock_lyrics (head : jsstring) : jsstring :=
  lines [lit "[Verse 1]"; head;
         lit "Walking down this road alone";
         lit "Trying to find my way back home";
         [];
         lit "[Chorus]";
         lit "We're dancing in the moonlight";
         lit "Feeling so alive tonight"].

Definition server_error (detail : jsstring) : response :=
  status_json 500
    (JObj [("error"%string, JStr (lit "server error"));
           ("detail"%string, JStr detail)]).

Definition mock_response (text : jsstring) : response :=
  json (JObj [("lyrics"%string, JStr text); ("mock"%string, JBool true)]).

Definition slice_error : jsstring := lit "TypeError: prompt.slice is not a function".

(** [!OPENAI_KEY || OPENAI_KEY === 'sk_test_dummy']. *)
Definition key_unusable (OPENAI_KEY : option jsstring) : bool :=
  match OPENAI_KEY with
  | None => true
  | Some k => negb (truthy (JStr k)) || bool_decide (k = lit "sk_test_dummy")
  end.

Definition chosen_prompt (reqBody : jsval) : jsval :=
  if truthy reqBody && truthy (prop "prompt" reqBody)
  then prop "prompt" reqBody else default_prompt.

Definition completion_request (prompt : jsval) : jsval :=
  JObj [("model"%string, JStr (lit "gpt-4o-mini"));
        ("messages"%string,
         JArr [JObj [("role"%string, JStr (lit "system"));
                     ("content"%string,
                      JStr (lit "You are a helpful assistant that writes song lyrics. Keep structure and rhymes in mind."))];
               JObj [("role"%string, JStr (lit "user"));
                     ("content"%string, prompt)]]);
        ("max_tokens"%string, JNum 400)].

(** [data.choices[0].message?.content || data.choices[0].text]. *)
Definition first_choice_text (data : jsval) : jsval :=
  let choice := index0 (prop "choices" data) in
  or (chain "content" (prop "message" choice)) (prop "text" choice).

(** The [lyrics] of the answer: [None] is the TypeError of reading
    [choices] off [null]. *)
Definition extract_lyrics (data : jsval) : option jsval :=
  choices ← get "choices" data;
  Some (if truthy choices && truthy (index0 choices)
           && truthy (first_choice_text data)
        then first_choice_text data else JNull).

Definition generate_lyrics (OPENAI_KEY : option jsstring) (reqBody : jsval)
    (up : upstream) : lyrics_served :=
  let prompt := chosen_prompt reqBody in
  if key_unusable OPENAI_KEY then
    {| lyrics_answers :=
         [match slice50 prompt with
          | Some head => mock_response (mock_lyrics (String head))
          | None => server_error slice_error
          end];
       asked := None |}
  else
    {| lyrics_answers :=
         [match up with
          | UpstreamThrew shown => server_error shown
          | UpstreamReplied status text =>
              if negb (ok status) then
                match slice50 prompt with
                | Some head => mock_response (short_mock_lyrics (String head))
                | None => server_error slice_error
                end
              else
                match JSON_parse text with
                | inl m =>
                    server_error
                      (lit "FetchError: invalid json response body at https://api.openai.com/v1/chat/completions reason: "
                       ++ m)
                | inr data =>
                    match extract_lyrics data with
                    | None =>
                        server_error
                          (lit "TypeError: Cannot read properties of null (reading 'choices')")
                    | Some l => json (JObj [("lyrics"%string, l)])
                    end
                end
          end];
       asked := Some (completion_request prompt) |}.

(** *** The routes that run [audio_processor.py] *)

Record served : Type := {
  answers : list response;
  disk_after : disk;
  invoked : option call
}.

(** What tells the three routes apart: the command and its extra
    arguments, the label of the [catch], and the success payload built from
    the worker's result ([inl] is the message of a TypeError raised while
    building it). *)
Record route : Type := {
  command : jsstring;
  extra_args : list jsval;
  failure : jsstring;
  payload : jsval -> jsstring + jsval
}.

Definition no_file_response : response :=
  status_json 400 (JObj [("error"%string, JStr (lit "No audio file provided"))]).

Definition route_failed (r : route) (detail : jsstring) : response :=
  status_json 500
    (JObj [("error"%string, JStr (failure r)); ("detail"%string, JStr detail)]).

Definition result_error_response (result : jsval) : response :=
  status_json 500
    (JObj [("error"%string, prop "error" result);
           ("message"%string, prop "message" result)]).

(** The handler shared by the three routes; [file] is [req.file.path]
    when multer stored an upload. The [await] takes the first settlement
    of the promise. *)
Definition processor_route (r : route) (file : option (list N)) (d : disk)
    (sched : schedule) : served :=
  match file with
  | None => {| answers := [no_file_response]; disk_after := d; invoked := None |}
  | Some path =>
      let c := callPythonProcessor JSON_parse dir (JStr (command r)) (JStr path)
                 (extra_args r) sched in
      match settled c with
      | [] => {| answers := []; disk_after := d; invoked := Some c |}
      | Rejected message :: _ =>
          {| answers := [route_failed r message]; disk_after := d;
             invoked := Some c |}
      | Resolved result :: _ =>
          {| answers :=
               [match get "error" result with
                | None =>
                    route_failed r
                      (lit "Cannot read properties of null (reading 'error')")
                | Some e =>
                    if truthy e then result_error_response result
                    else match payload r result with
                         | inl m => route_failed r m
                         | inr p => json p
                         end
                end];
             disk_after := delete path d;
             invoked := Some c |}
      end
  end.

Definition analyze_route : route :=
  {| command := lit "analyze"; extra_args := [];
     failure := lit "Audio analysis failed";
     payload := fun result =>
       inr (JObj [("analysis"%string, prop "analysis" result);
                  ("recommendations"%string, prop "recommendations" result);
                  ("success"%string, JBool true)]) |}.

Definition analyze_audio := processor_route analyze_route.

Definition mastering_payload (result : jsval) : jsstring + jsval :=
  match get "limiter_threshold" (prop "mastering_settings" result) with
  | None =>
      inl (lit "Cannot read properties of "
           ++ String (prop "mastering_settings" result)
           ++ lit " (reading 'limiter_threshold')")
  | Some _ =>
      let ms := prop "mastering_settings" result in
      inr (JObj
             [("success"%string, JBool true);
              ("mastering_settings"%string,
               JObj [("target_loudness"%string, prop "target_loudness" result);
                     ("measured_loudness"%string, prop "measured_loudness" result);
                     ("makeup_gain"%string, prop "makeup_gain" result);
                     ("limiter_threshold"%string, prop "limiter_threshold" ms);
                     ("limiter_ratio"%string, prop "limiter_ratio" ms);
                     ("dithering"%string, prop "dithering" ms);
                     ("bit_depth"%string, prop "bit_depth" ms)]);
              ("recommendations"%string,
               JArr [JStr (lit "Measured loudness: "
                           ++ String (prop "measured_loudness" result) ++ lit " dB");
                     JStr (lit "Makeup gain needed: "
                           ++ String (prop "makeup_gain" result) ++ lit " dB");
                     JStr (lit "Soft limiting enabled to prevent clipping");
                     JStr (lit "Optimized for streaming platforms (-14 LUFS)");
                     JStr (lit "Shaped dithering for bit-depth reduction (24-bit)")]);
              ("message"%string,
               JStr (lit "AI mastering profile generated using loudness analysis"))])
  end.

Definition mastering_route : route :=
  {| command := lit "master"; extra_args := [JStr (lit "-14")];
     failure := lit "AI mastering failed";
     payload := mastering_payload |}.

Definition ai_mastering := processor_route mastering_route.

(** [`/tmp/stems_${Date.now()}`]. *)
Definition outputDir (now : Z) : jsstring := lit "/tmp/stems_" ++ of_Z now.

Definition stem_route (now : Z) : route :=
  {| command := lit "separate"; extra_args := [JStr (outputDir now)];
     failure := lit "Stem separation failed";
     payload := fun result =>
       inr (JObj
              [("success"%string, JBool true);
               ("stems"%string, prop "stems" result);
               ("levels"%string, prop "levels" result);
               ("output_dir"%string, prop "output_dir" result);
               ("message"%string,
                JStr (lit "Stem separation completed using Spleeter 4-stem model"));
               ("notes"%string,
                JStr (lit "Stems are available at the provided paths. In production, upload to cloud storage (S3, GCS, etc.)"))]) |}.

Definition stem_separation (now : Z) := processor_route (stem_route now).

End Platform.

End Routes.

(** ** The other handlers of [src/App.jsx] *)

Module Studio.

(** What these handlers do, in program order: the actions of the compose
    handler, the setters of the other state hooks, and the two requests
    that carry a blob. The entry of [setHistory(h => [entry, ...h])] is
    computed when React runs the updater; [inl] is the message of the
    TypeError that computing it raises. *)
Inductive step : Type :=
| Base (a : Client.action)
| SetLyricsResult (v : jsval)
| SetIsGenerating (b : bool)
| SetSubscriptionActive (b : bool)
| SetProcessing (b : bool)
| SetMasteringSettings (v : jsval)
| QueueHistory (entry : jsstring + jsval)
| FetchBlob (url : jsval)
| PostForm (url : jsstring) (fields : list (string * jsstring)).

(** Each state hook sees the updaters queued for it, in order. *)
Fixpoint credits_after (trace : list step) (credits : Z) : Z :=
  match trace with
  | [] => credits
  | Base (Client.Update (Client.SetCredits d)) :: rest =>
      credits_after rest (credits + d)
  | _ :: rest => credits_after rest credits
  end.

Fixpoint lyricsResult_after (trace : list step) (v : jsval) : jsval :=
  match trace with
  | [] => v
  | SetLyricsResult v' :: rest => lyricsResult_after rest v'
  | _ :: rest => lyricsResult_after rest v
  end.

Fixpoint isGenerating_after (trace : list step) (b : bool) : bool :=
  match trace with
  | [] => b
  | SetIsGenerating b' :: rest => isGenerating_after rest b'
  | _ :: rest => isGenerating_after rest b
  end.

Fixpoint processing_after (trace : list step) (b : bool) : bool :=
  match trace with
  | [] => b
  | SetProcessing b' :: rest => processing_after rest b'
  | _ :: rest => processing_after rest b
  end.

Fixpoint subscriptionActive_after (trace : list step) (b : bool) : bool :=
  match trace with
  | [] => b
  | SetSubscriptionActive b' :: rest => subscriptionActive_after rest b'
  | _ :: rest => subscriptionActive_after rest b
  end.

Fixpoint isPaywallOpen_after (trace : list step) (b : bool) : bool :=
  match trace with
  | [] => b
  | Base (Client.Update (Client.SetIsPaywallOpen b')) :: rest =>
      isPaywallOpen_after rest b'
  | _ :: rest => isPaywallOpen_after rest b
  end.

Definition alerts (trace : list step) : list jsstring :=
  omap (fun s => match s with
                 | Base (Client.Alert m) => Some m
                 | _ => None
                 end) trace.

(** The requests that leave the browser for the API server. *)
Definition is_request (s : step) : bool :=
  match s with
  | Base (Client.Fetch _ _) | PostForm _ _ => true
  | _ => false
  end.

Definition refunds (trace : list step) : nat :=
  length (List.filter (fun s => match s with
                                | Base a => Client.is_refund a
                                | _ => false
                                end) trace).

Definition debits (trace : list step) : nat :=
  length (List.filter (fun s => match s with
                                | Base a => Client.is_debit a
                                | _ => false
                                end) trace).

Definition lyrics_url : jsstring := lit "http://localhost:3000/api/generate-lyrics".
Definition mastering_url : jsstring := lit "http://localhost:3000/api/ai-mastering".

Definition generation_error_text : jsstring :=
  lit "Error generating lyrics. Check console.".

Section Platform.

Variable JSON_parse : jsstring -> jsstring + jsval.

(** *** [handleGenerateLyrics] *)

(** The [try] block once the [fetch] has settled. *)
Definition lyrics_try (e : Client.net_event) : Client.exn + list step :=
  match e with
  | Client.Failed m => inl {| Client.name := lit "TypeError"; Client.message := m |}
  | Client.Responded status text =>
      if negb (ok status) then
        inl {| Client.name := lit "Error"; Client.message := lit "Lyrics API error" |}
      else
        match JSON_parse text with
        | inl m => inl {| Client.name := lit "SyntaxError"; Client.message := m |}
        | inr data =>
            match get "lyrics" data with
            | None =>
                inl {| Client.name := lit "TypeError";
                       Client.message :=
                         lit "Cannot read properties of null (reading 'lyrics')" |}
            | Some l =>
                inr [SetLyricsResult (or l (JStr (lit "(no lyrics returned)")))]
            end
        end
  end.

(** [handleGenerateLyrics] on the render [snap] with the prompt field
    holding [lyricsPrompt]. The request has no timeout: [net] is [None]
    when the [fetch] never settles, and the handler then stays suspended at
    its [await]. *)
Definition handleGenerateLyrics (snap : Client.AppState) (lyricsPrompt : jsstring)
    (net : option Client.net_event) : list step :=
  if negb (truthy (JStr (trim lyricsPrompt))) then []
  else
    let '(debited, acts) := Client.useCredit snap 1 in
    if negb debited
    then map Base acts ++ [Base (Client.Update (Client.SetIsPaywallOpen true))]
    else
      map Base acts
      ++ [SetIsGenerating true; SetLyricsResult (JStr []);
          Base (Client.Fetch lyrics_url (JObj [("prompt"%string, JStr lyricsPrompt)]))]
      ++ match net with
         | None => []
         | Some e =>
             match lyrics_try e with
             | inr done => done
             | inl err =>
                 [Base (Client.ConsoleError (Client.message err));
                  SetLyricsResult (JStr generation_error_text);
                  Base (Client.Update (Client.SetCredits 1))]
             end
             ++ [SetIsGenerating false]
         end.

(** *** [handleMockPurchase] *)

Definition handleMockPurchase : list step :=
  [SetSubscriptionActive true;
   Base (Client.Update (Client.SetCredits 50));
   Base (Client.Update (Client.SetIsPaywallOpen false));
   Base (Client.Alert
           (lit "Mock purchase complete: subscription activated and 50 credits added (prototype)."))].

(** *** [handleAIMastering] *)

(** [a.join('\n')] on an array. *)
Definition join_lines (items : list jsval) : jsstring :=
  lines (map (fun i => match i with
                       | JUndefined | JNull => []
                       | _ => String i
                       end) items).

(** The text of the success alert; [inl] is the TypeError met on the way. *)
Definition mastering_alert (ms : jsval) : jsstring + jsstring :=
  match get "targetLoudness" ms with
  | None =>
      inl (lit "Cannot read properties of " ++ String ms
           ++ lit " (reading 'targetLoudness')")
  | Some loudness =>
      match prop "recommendations" ms with
      | JArr items =>
          inr (lit "AI Mastering applied!" ++ nl ++ nl ++ lit "Target Loudness: "
               ++ String loudness ++ lit " LUFS" ++ nl ++ nl ++ join_lines items)
      | JUndefined | JNull =>
          inl (lit "Cannot read properties of "
               ++ String (prop "recommendations" ms) ++ lit " (reading 'join')")
      | _ => inl (lit "data.masteringSettings.recommendations.join is not a function")
      end
  end.

(** The [try] block once the request has settled: the setters it got
    to call, and the exception that ended it, if any. *)
Definition mastering_try (now : Z) (e : Client.net_event)
    : list step * option Client.exn :=
  match e with
  | Client.Failed m =>
      ([], Some {| Client.name := lit "TypeError"; Client.message := m |})
  | Client.Responded status text =>
      if negb (ok status) then
        ([], Some {| Client.name := lit "Error";
                     Client.message := lit "AI mastering failed" |})
      else
        match JSON_parse text with
        | inl m => ([], Some {| Client.name := lit "SyntaxError"; Client.message := m |})
        | inr data =>
            match get "masteringSettings" data with
            | None =>
                ([], Some {| Client.name := lit "TypeError";
                             Client.message :=
                               lit "Cannot read properties of null (reading 'masteringSettings')" |})
            | Some ms =>
                let entry :=
                  match get "targetLoudness" ms with
                  | None =>
                      inl (lit "Cannot read properties of " ++ String ms
                           ++ lit " (reading 'targetLoudness')")
                  | Some loudness =>
                      inr (JObj [("type"%string, JStr (lit "mastered"));
                                 ("loudness"%string, loudness);
                                 ("time"%string, JNum now)])
                  end in
                let called := [SetMasteringSettings ms; QueueHistory entry] in
                match mastering_alert ms with
                | inl m =>
                    (called,
                     Some {| Client.name := lit "TypeError"; Client.message := m |})
                | inr text => (called ++ [Base (Client.Alert text)], None)
                end
            end
        end
  end.

Definition mastering_caught (err : Client.exn) : list step :=
  [Base (Client.ConsoleError (Client.message err));
   Base (Client.Alert (lit "AI mastering failed"))].

(** [handleAIMastering] on a render with [audioFile] and
    [subscriptionActive]. [blob] is what [fetch(audioFile)] yields, [inl]
    with the message of the TypeError when it rejects; [net] is as for
    [handleGenerateLyrics]. *)
Definition handleAIMastering (audioFile : jsval) (subscriptionActive : bool)
    (now : Z) (blob : jsstring + jsstring) (net : option Client.net_event)
    : list step :=
  if negb (truthy audioFile) then [Base (Client.Alert (lit "Upload an audio file first"))]
  else if negb subscriptionActive
  then [Base (Client.Update (Client.SetIsPaywallOpen true))]
  else
    [SetProcessing true; FetchBlob audioFile]
    ++ match blob with
       | inl m =>
           mastering_caught {| Client.name := lit "TypeError"; Client.message := m |}
           ++ [SetProcessing false]
       | inr bytes =>
           [PostForm mastering_url [("file"%string, bytes)]]
           ++ match net with
              | None => []
              | Some e =>
                  let '(called, thrown) := mastering_try now e in
                  called
                  ++ match thrown with
                     | Some err => mastering_caught err
                     | None => []
                     end
                  ++ [SetProcessing false]
              end
       end.

End Platform.

End Studio.

(** ** What a finished request looks like *)

Module Outcome.

Import Server.

Section Platform.

Variable toBase64 : list N -> jsstring.
Variable dir : jsstring.
Variable unlink_fails : list N -> bool.

(** The one response [r] of a compose-song job and the disk [fs] it
    leaves, for a request [rq] that found the disk [d]: either a 500, with
    the disk as it was or short of one file, or the success payload built
    from a result whose [audio_path] names a file that was read, and that
    is gone unless its removal failed. *)
Definition answered (rq : request) (d : disk) (r : response) (fs : disk) : Prop :=
  (status r = 500
   /\ (fs = d \/ exists path bytes, d !! path = Some bytes /\ fs = delete path d))
  \/ (exists result path bytes structure,
        r = success_response rq result (toBase64 bytes) structure
        /\ prop "audio_path" result = JStr path
        /\ d !! path = Some bytes
        /\ fs = if unlink_fails path then d else delete path d).

(** The invariant of a compose-song job: unresolved with the timer
    armed, nothing sent and the disk untouched; or resolved with the timer
    disarmed and exactly one response, which is the timeout response
    exactly when the worker was killed. *)
Definition job_race (rq : request) (d : disk) (j : job) : Prop :=
  isResolved j = negb (timerArmed j)
  /\ spawned j = Some (spawn_args dir rq)
  /\ (if isResolved j
      then exists r, sent j = [r]
                     /\ (killed j = true <-> r = timeout_response)
                     /\ answered rq d r (files j)
      else sent j = [] /\ killed j = false /\ files j = d).

End Platform.

End Outcome.

(** ** Decimal numerals *)

Module Numeral.

(** The value of a numeral read digit by digit from the left, starting
    from [a]: what the loop of [parseInt] computes. *)
Fixpoint horner (u : Decimal.uint) (a : Z) : Z :=
  match u with
  | Decimal.Nil => a
  | Decimal.D0 u => horner u (a * 10 + 0)
  | Decimal.D1 u => horner u (a * 10 + 1)
  | Decimal.D2 u => horner u (a * 10 + 2)
  | Decimal.D3 u => horner u (a * 10 + 3)
  | Decimal.D4 u => horner u (a * 10 + 4)
  | Decimal.D5 u => horner u (a * 10 + 5)
  | Decimal.D6 u => horner u (a * 10 + 6)
  | Decimal.D7 u => horner u (a * 10 + 7)
  | Decimal.D8 u => horner u (a * 10 + 8)
  | Decimal.D9 u => horner u (a * 10 + 9)
  end.

End Numeral.

(** ** More concrete runs *)

Module Fixtures.

Definition bare_result : jsval :=
  JObj [("success"%string, JBool true);
        ("audio_path"%string, JStr Sample.song_path)].

Definition failed_result : jsval :=
  JObj [("success"%string, JBool false); ("error"%string, JStr (lit "no voice"))].

Definition master_result : jsval :=
  JObj [("target_loudness"%string, JNum (-14));
        ("measured_loudness"%string, JNum (-20));
        ("makeup_gain"%string, JNum 6);
        ("mastering_settings"%string,
         JObj [("limiter_threshold"%string, JNum (-1));
               ("limiter_ratio"%string, JNum 10);
               ("dithering"%string, JBool true);
               ("bit_depth"%string, JNum 24)])].

Definition documents : list (jsstring * jsval) :=
  Sample.documents
  ++ [(lit "BARE", bare_result); (lit "FAILED", failed_result);
      (lit "MASTER", master_result)].

Definition JSON_parse (s : jsstring) : jsstring + jsval :=
  Sample.lookup_document s documents.

(** The parser of a browser that receives one known document. *)
Definition reads (v : jsval) : jsstring -> jsstring + jsval := fun _ => inr v.

Definition atob (s : jsstring) : option jsstring := Some s.

Definition upload : list N := lit "/tmp/audio_uploads/ab12".

Definition disk_with_upload : gmap (list N) (list N) := {[upload := lit "ID3"]}.

(** A worker that prints [doc] and a warning. *)
Definition prints (doc : jsstring) : list (Z * Server.child_event) :=
  [(10, Server.StdoutData doc); (20, Server.StderrData (lit "warn"))].

Definition compose_song :=
  Server.compose_song JSON_parse Sample.toBase64 Sample.dir Sample.unlink_fails.
(** The same route where no file may be removed. *)
Definition compose_song_sealed :=
  Server.compose_song JSON_parse Sample.toBase64 Sample.dir (fun _ => true).
Definition callPythonProcessor := Server.callPythonProcessor JSON_parse Sample.dir.
Definition ai_mastering := Routes.ai_mastering JSON_parse Sample.dir.
Definition analyze_audio := Routes.analyze_audio JSON_parse Sample.dir.

Definition render : Client.AppState := Sample.snapshot 5 (lit "la") (lit "120").

(** A mastering run that succeeds on the server, and its answer. *)
Definition mastering_run : list (Z * Server.child_event) :=
  prints (lit "MASTER") ++ [(30, Server.CloseEvent (Some 0))].

Definition mastering_answer : Server.response :=
  match Routes.answers (ai_mastering (Some upload) disk_with_upload mastering_run) with
  | r :: _ => r
  | [] => Routes.no_file_response
  end.

(** The success response to [render]'s compose request. *)
Definition song_answer : Server.response :=
  Server.success_response Sample.rq_ok Sample.good_result
    (Sample.toBase64 Sample.song_bytes)
    (JArr [JStr (lit "Intro"); JStr (lit "Outro")]).

(** The route's answer to the prompt "sun" when no API key is set. *)
Definition mock_answer : Server.response :=
  Routes.mock_response (Routes.mock_lyrics (take 50 (lit "sun"))).

End Fixtures.

(** * Properties *)

(** ** Trimming *)

Section Trim.

Lemma trimStart_nil_blank (s : jsstring) : trimStart s = [] <-> blank s = true.
Proof.
  induction s as [|c s IH]; simpl; [tauto|].
  destruct (isWhiteSpace c); simpl; [exact IH|].
  split; discriminate.
Qed.

Lemma blank_trimStart_nil (s : jsstring) :
  blank (trimStart s) = true -> trimStart s = [].
Proof.
  induction s as [|c s IH]; simpl; [reflexivity|].
  destruct (isWhiteSpace c) eqn:Hc; [exact IH|].
  simpl. rewrite Hc. discriminate.
Qed.

Lemma blank_rev (s : jsstring) : blank (rev s) = blank s.
Proof.
  unfold blank. induction s as [|c s IH]; simpl; [reflexivity|].
  rewrite forallb_app, IH. simpl. rewrite andb_true_r. apply andb_comm.
Qed.

Lemma trim_nil_blank (s : jsstring) : trim s = [] <-> blank s = true.
Proof.
  unfold trim, trimEnd. split.
  - intros H. apply (f_equal (@rev N)) in H. rewrite rev_involutive in H.
    simpl in H. apply trimStart_nil_blank in H. rewrite blank_rev in H.
    apply trimStart_nil_blank. now apply blank_trimStart_nil.
  - intros H. apply trimStart_nil_blank in H. now rewrite H.
Qed.

Lemma truthy_trim (s : jsstring) : truthy (JStr (trim s)) = negb (blank s).
Proof.
  destruct (blank s) eqn:Hb.
  - apply trim_nil_blank in Hb. now rewrite Hb.
  - simpl. destruct (trim s) eqn:Ht; [|reflexivity].
    apply trim_nil_blank in Ht. congruence.
Qed.

End Trim.

(** ** Numbers *)

Lemma to_double_safe (z : Z) : safe_integer z = true -> to_double z = z.
Proof.
  unfold safe_integer, MAX_SAFE_INTEGER, to_double. intros H.
  apply Z.leb_le in H.
  replace (Z.log2 (Z.abs z) - 52 <=? 0) with true; [reflexivity|].
  symmetry. apply Z.leb_le.
  destruct (Z.eq_dec (Z.abs z) 0) as [->|Hz]; [simpl; lia|].
  assert (Z.log2 (Z.abs z) < 53); [|lia].
  apply Z.log2_lt_pow2; lia.
Qed.

(** ** The event loop *)

Import Server.

Section EventLoopFacts.

Context {S : Type}.
Variable deadline : Z.
Variable armed : S -> bool.
Variable fire : S -> S.
Variable handle : child_event -> S -> S.

Local Abbreviation dispatch := (dispatch deadline armed fire handle).
Local Abbreviation run := (run deadline armed fire handle).

Lemma dispatch_app (pre post : schedule) (s : S) :
  dispatch (pre ++ post) s = dispatch post (dispatch pre s).
Proof.
  revert s. induction pre as [|[t e] pre IH]; intros s; simpl; [reflexivity|].
  apply IH.
Qed.

(** A property of disarmed states that no listener breaks survives any
    schedule. *)
Section Quiet.

Variable quiet : S -> Prop.
Hypothesis quiet_disarmed : forall s, quiet s -> armed s = false.
Hypothesis quiet_handle : forall e s, quiet s -> quiet (handle e s).

Lemma quiet_dispatch (sched : schedule) (s : S) :
  quiet s -> quiet (dispatch sched s).
Proof.
  revert s. induction sched as [|[t e] rest IH]; intros s Hq; simpl; [exact Hq|].
  apply IH, quiet_handle. unfold fire_if_due.
  now rewrite (quiet_disarmed s Hq).
Qed.

Lemma quiet_run (sched : schedule) (s : S) : quiet s -> quiet (run sched s).
Proof.
  intros Hq. unfold Server.run, settle.
  pose proof (quiet_dispatch sched s Hq) as Hd.
  now rewrite (quiet_disarmed _ Hd).
Qed.

End Quiet.

(** While the job is [pending] the timer is armed and the pipe events
    keep it pending. *)
Variable pending : S -> Prop.
Hypothesis waits_armed : forall s, pending s -> armed s = true.
Hypothesis waits_data :
  forall e s, pending s -> ends_job e = false -> pending (handle e s).

(** No [error] and no [close] by the deadline: the timer callback runs
    on a pending job, and what it establishes stays. *)
Lemma run_times_out (timed_out : S -> Prop)
    (Hdis : forall s, timed_out s -> armed s = false)
    (Hstay : forall e s, timed_out s -> timed_out (handle e s))
    (Hfire : forall s, pending s -> timed_out (fire s))
    (sched : schedule) (s : S) :
  pending s -> ends_within deadline sched = false -> timed_out (run sched s).
Proof.
  revert s. induction sched as [|[t e] rest IH]; intros s Hp Hnone.
  - unfold Server.run, settle. simpl. rewrite (waits_armed s Hp). now apply Hfire.
  - simpl in Hnone. apply orb_false_iff in Hnone as [Hhead Hrest].
    unfold Server.run. simpl. unfold fire_if_due. rewrite (waits_armed s Hp). simpl.
    destruct (deadline <=? t) eqn:Hdue.
    + apply (quiet_run timed_out Hdis Hstay). apply Hstay. now apply Hfire.
    + apply IH; [|exact Hrest]. apply waits_data; [exact Hp|].
      destruct (ends_job e); [|reflexivity].
      simpl in Hhead. apply Z.leb_gt in Hdue. apply Z.leb_gt in Hhead. lia.
Qed.




End EventLoopFacts.

(** ** The compose-song job *)

Section JobFacts.

Variable JSON_parse : jsstring -> jsstring + jsval.
Variable toBase64 : list N -> jsstring.
Variable dir : jsstring.
Variable unlink_fails : list N -> bool.

Local Abbreviation close_try := (close_try JSON_parse toBase64 unlink_fails).
Local Abbreviation on_close := (on_close JSON_parse toBase64 unlink_fails).
Local Abbreviation handle := (handle JSON_parse toBase64 unlink_fails).
Local Abbreviation compose_song :=
  (compose_song JSON_parse toBase64 dir unlink_fails).
Local Abbreviation loop rq :=
  (run compose_timeout_ms timerArmed fire (handle rq)).

Lemma same_outcome_refl (j : job) : same_outcome j j.
Proof. repeat split. Qed.

Lemma same_outcome_trans (a b c : job) :
  same_outcome a b -> same_outcome b c -> same_outcome a c.
Proof. unfold same_outcome. intuition congruence. Qed.

Ltac distinct_response :=
  let H := fresh in intros H; cbv in H; congruence.

(** The [try] block of the [close] listener answers exactly once, never
    with the timeout response, and touches nothing but the disk. *)
Lemma close_try_sends_one (rq : request) (code : option Z) (j : job) :
  exists r,
    sent (close_try rq code j) = sent j ++ [r]
    /\ r <> timeout_response
    /\ spawned (close_try rq code j) = spawned j
    /\ isResolved (close_try rq code j) = isResolved j
    /\ timerArmed (close_try rq code j) = timerArmed j
    /\ timerFired (close_try rq code j) = timerFired j
    /\ killed (close_try rq code j) = killed j
    /\ stdoutData (close_try rq code j) = stdoutData j
    /\ stderrData (close_try rq code j) = stderrData j.
Proof.
  unfold Server.close_try.
  repeat match goal with
         | |- context [match ?x with _ => _ end] => destruct x eqn:?
         end;
    simpl; eexists; (split; [reflexivity|]); (split; [distinct_response|]);
    repeat split.
Qed.

(** Once the request is resolved and the timer disarmed, no listener
    changes anything but the captured text. *)
Lemma handle_resolved (rq : request) (e : child_event) (j : job) :
  isResolved j = true -> timerArmed j = false -> same_outcome j (handle rq e j).
Proof.
  intros Hr Ha. destruct e; simpl.
  - repeat split.
  - repeat split.
  - unfold on_error. simpl. rewrite Hr. repeat split. simpl. now rewrite Ha.
  - unfold Server.on_close. simpl. rewrite Hr. repeat split. simpl. now rewrite Ha.
Qed.

Lemma settled_as_disarmed (j0 j : job) : settled_as j0 j -> timerArmed j = false.
Proof. intros (_ & Ha & _ & _ & Hj & _). congruence. Qed.

Lemma settled_as_handle (rq : request) (j0 : job) (e : child_event) (j : job) :
  settled_as j0 j -> settled_as j0 (handle rq e j).
Proof.
  intros (Hr & Ha & Hs). split; [exact Hr|]. split; [exact Ha|].
  apply (same_outcome_trans _ j); [exact Hs|].
  destruct Hs as (_ & Hr' & Ha' & _). apply handle_resolved; congruence.
Qed.

Lemma resolved_stable (rq : request) (sched : schedule) (j : job) :
  isResolved j = true -> timerArmed j = false ->
  same_outcome j (loop rq sched j).
Proof.
  intros Hr Ha.
  apply (quiet_run compose_timeout_ms timerArmed fire (handle rq) (settled_as j)
           (settled_as_disarmed j) (settled_as_handle rq j) sched j).
  split; [exact Hr|]. split; [exact Ha|]. apply same_outcome_refl.
Qed.

Lemma raced_running (rq : request) (d : disk) : raced (running dir rq d).
Proof. split; reflexivity. Qed.

Lemma raced_fire (j : job) : timerArmed j = true -> raced j -> raced (fire j).
Proof.
  intros Ha [Hr Hn]. rewrite Ha in Hr. simpl in Hr. rewrite Hr in Hn.
  unfold fire, on_timeout. simpl. rewrite Hr. split; simpl; [reflexivity|].
  rewrite length_app, Hn. reflexivity.
Qed.

Lemma isResolved_fire (j : job) : isResolved (fire j) = true.
Proof.
  unfold fire, on_timeout. simpl. destruct (isResolved j) eqn:Hr; simpl; auto.
Qed.

Lemma raced_handle (rq : request) (e : child_event) (j : job) :
  raced j -> raced (handle rq e j).
Proof.
  intros [Hr Hn]. destruct e; simpl.
  - split; assumption.
  - split; assumption.
  - unfold on_error. simpl. destruct (isResolved j) eqn:Hres.
    + split; simpl; [now rewrite Hres|now rewrite Hres].
    + split; simpl; [reflexivity|]. rewrite length_app, Hn. reflexivity.
  - unfold Server.on_close. simpl. destruct (isResolved j) eqn:Hres.
    + split; simpl; [now rewrite Hres|now rewrite Hres].
    + destruct (close_try_sends_one rq code (set_isResolved (clearTimeout j)))
        as (r & Hs & _ & _ & Hr' & Ha' & _).
      split.
      * rewrite Hr', Ha'. reflexivity.
      * rewrite Hr', Hs, length_app. simpl. rewrite Hn. reflexivity.
Qed.

Lemma raced_dispatch (rq : request) (sched : schedule) (j : job) :
  raced j ->
  raced (dispatch compose_timeout_ms timerArmed fire (handle rq) sched j).
Proof.
  revert j. induction sched as [|[t e] rest IH]; intros j Hj; simpl; [exact Hj|].
  apply IH, raced_handle. unfold fire_if_due.
  destruct (timerArmed j) eqn:Ha; simpl; [|exact Hj].
  destruct (compose_timeout_ms <=? t); [|exact Hj]. now apply raced_fire.
Qed.

Lemma raced_run (rq : request) (sched : schedule) (j : job) :
  raced j -> length (sent (loop rq sched j)) = 1%nat.
Proof.
  intros Hj. apply (raced_dispatch rq sched) in Hj. unfold run, settle.
  destruct (timerArmed _) eqn:Ha.
  - apply raced_fire in Hj; [|exact Ha]. destruct Hj as [_ Hn].
    now rewrite isResolved_fire in Hn.
  - destruct Hj as [Hr Hn]. rewrite Ha in Hr. simpl in Hr. now rewrite Hr in Hn.
Qed.

Lemma compose_song_accepted (b : jsval) (rq : request) (d : disk)
    (sched : schedule) :
  accepted b rq -> spawn_throws (spawn_args dir rq) = false ->
  compose_song b d sched = loop rq sched (running dir rq d).
Proof.
  intros [Hd Hl] Hsp. unfold Server.compose_song. now rewrite Hd, Hl, Hsp.
Qed.

(** When [spawn] throws nothing happens after it, whatever the schedule. *)
Lemma compose_song_stranded (b : jsval) (rq : request) (d : disk)
    (sched : schedule) :
  accepted b rq -> spawn_throws (spawn_args dir rq) = true ->
  compose_song b d sched = stranded dir rq d.
Proof.
  intros [Hd Hl] Hsp. unfold Server.compose_song. now rewrite Hd, Hl, Hsp.
Qed.

Lemma running_capturing (rq : request) (d : disk) :
  running dir rq d = capturing dir rq d [] [].
Proof. reflexivity. Qed.

Lemma pending_armed (rq : request) (d : disk) (j : job) :
  pending dir rq d j -> timerArmed j = true.
Proof. now intros (out & err & ->). Qed.

Lemma pending_data (rq : request) (d : disk) (e : child_event) (j : job) :
  pending dir rq d j -> ends_job e = false -> pending dir rq d (handle rq e j).
Proof.
  intros (out & err & ->) He. destruct e; try discriminate; simpl.
  - now exists (out ++ chunk), err.
  - now exists out, (err ++ chunk).
Qed.

(** Pipe events before the deadline only grow the captured text. *)
Lemma dispatch_data (rq : request) (d : disk) (pre : schedule)
    (out err : jsstring) :
  data_before compose_timeout_ms pre = true ->
  dispatch compose_timeout_ms timerArmed fire (handle rq) pre
    (capturing dir rq d out err)
  = capturing dir rq d (out ++ stdout_of pre) (err ++ stderr_of pre).
Proof.
  revert out err. induction pre as [|[t e] pre IH]; intros out err Hpre.
  - simpl. now rewrite !app_nil_r.
  - simpl in Hpre. apply andb_true_iff in Hpre as [Hhead Hpre].
    apply andb_true_iff in Hhead as [He Ht]. apply Z.ltb_lt in Ht.
    cbn [Server.dispatch]. unfold fire_if_due.
    replace (compose_timeout_ms <=? t) with false by (symmetry; apply Z.leb_gt; lia).
    rewrite andb_false_r.
    destruct e; try discriminate.
    + change (handle rq (StdoutData chunk) (capturing dir rq d out err))
        with (capturing dir rq d (out ++ chunk) err).
      rewrite IH by exact Hpre. cbn [stdout_of stderr_of]. now rewrite <- app_assoc.
    + change (handle rq (StderrData chunk) (capturing dir rq d out err))
        with (capturing dir rq d out (err ++ chunk)).
      rewrite IH by exact Hpre. cbn [stdout_of stderr_of]. now rewrite <- app_assoc.
Qed.

Lemma timed_out_disarmed (d : disk) (j : job) : timed_out d j -> timerArmed j = false.
Proof. now intros (_ & Ha & _). Qed.

Lemma timed_out_handle (rq : request) (d : disk) (e : child_event) (j : job) :
  timed_out d j -> timed_out d (handle rq e j).
Proof.
  intros (Hr & Ha & Hf & Hk & Hs & Hd).
  destruct (handle_resolved rq e j Hr Ha) as (_ & Hr' & Ha' & Hf' & Hk' & Hs' & Hd').
  repeat split; congruence.
Qed.

Lemma fire_pending (rq : request) (d : disk) (j : job) :
  pending dir rq d j -> timed_out d (fire j).
Proof. intros (out & err & ->). repeat split. Qed.



Lemma end_pending (rq : request) (d : disk) (e : child_event) (j : job) :
  pending dir rq d j -> ends_job e = true -> ended_early (handle rq e j).
Proof.
  intros (out & err & ->) He. destruct e; try discriminate; simpl.
  - unfold on_error. simpl. repeat split. eexists. split; [reflexivity|].
    distinct_response.
  - unfold Server.on_close. simpl.
    destruct (close_try_sends_one rq code
                (set_isResolved (clearTimeout (capturing dir rq d out err))))
      as (r & Hs & Hne & _ & Hr & Ha & Hf & Hk & _).
    repeat split; try assumption. exists r. split; assumption.
Qed.

(** The state in which the [close] listener leaves a job that was still
    capturing, and which the rest of the schedule cannot disturb. *)
Lemma run_until_close (rq : request) (d : disk) (pre post : schedule) (t : Z)
    (code : option Z) :
  data_before compose_timeout_ms pre = true -> t < compose_timeout_ms ->
  same_outcome
    (close_try rq code
       (set_isResolved (clearTimeout
          (capturing dir rq d (stdout_of pre) (stderr_of pre)))))
    (loop rq (pre ++ (t, CloseEvent code) :: post) (running dir rq d)).
Proof.
  intros Hpre Ht. unfold run. rewrite dispatch_app, running_capturing.
  rewrite dispatch_data by exact Hpre. simpl. unfold fire_if_due. simpl.
  replace (compose_timeout_ms <=? t) with false by (symmetry; apply Z.leb_gt; lia).
  unfold Server.on_close. simpl.
  destruct (close_try_sends_one rq code
              (set_isResolved (clearTimeout
                 (capturing dir rq d (stdout_of pre) (stderr_of pre)))))
    as (r & _ & _ & _ & Hr & Ha & _).
  apply resolved_stable; assumption.
Qed.


End JobFacts.

(** ** [callPythonProcessor] *)

Section CallFacts.

Variable JSON_parse : jsstring -> jsstring + jsval.

Local Abbreviation call_handle := (call_handle JSON_parse).

Lemma call_pending_armed (c : call) : call_pending c -> callArmed c = true.
Proof. now intros (_ & Ha & _). Qed.

Lemma call_pending_data (e : child_event) (c : call) :
  call_pending c -> ends_job e = false -> call_pending (call_handle e c).
Proof.
  intros (Hr & Ha & Hf & Hk & Hs) He.
  destruct e; try discriminate; repeat split; assumption.
Qed.

Lemma call_fire_pending (c : call) : call_pending c -> call_timed_out (call_fire c).
Proof.
  intros (Hr & Ha & Hf & Hk & Hs). unfold call_fire, call_on_timeout. simpl.
  rewrite Hr. repeat split. simpl. now rewrite Hs.
Qed.

Lemma call_handle_resolved (e : child_event) (c : call) :
  callResolved c = true -> callArmed c = false ->
  callResolved (call_handle e c) = true /\ callArmed (call_handle e c) = false
  /\ callFired (call_handle e c) = callFired c
  /\ callKilled (call_handle e c) = callKilled c
  /\ settled (call_handle e c) = settled c.
Proof.
  intros Hr Ha. destruct e; simpl.
  - repeat split; assumption.
  - repeat split; assumption.
  - unfold call_on_error. simpl. rewrite Hr. repeat split. exact Hr.
  - unfold call_on_close. simpl. rewrite Hr. repeat split. exact Hr.
Qed.

Lemma call_timed_out_disarmed (c : call) : call_timed_out c -> callArmed c = false.
Proof. now intros (_ & Ha & _). Qed.

Lemma call_timed_out_handle (e : child_event) (c : call) :
  call_timed_out c -> call_timed_out (call_handle e c).
Proof.
  intros (Hr & Ha & Hf & Hk & Hs).
  destruct (call_handle_resolved e c Hr Ha) as (Hr' & Ha' & Hf' & Hk' & Hs').
  repeat split; congruence.
Qed.



Ltac distinct_settlement :=
  let H := fresh in intros H; cbv in H; congruence.


Lemma call_running_pending (dir : jsstring) (command audioPath : jsval)
    (args : list jsval) :
  call_pending (call_running dir command audioPath args).
Proof. repeat split. Qed.

End CallFacts.

(** ** The frontend handler *)

Section ClientFacts.

Variable JSON_parse : jsstring -> jsstring + jsval.
Variable atob : jsstring -> option jsstring.
Variable createObjectURL : jsstring -> jsstring.

Local Abbreviation try_block := (Client.try_block JSON_parse atob createObjectURL).

Lemma commit_app (a b : list Client.action) (st : Client.AppState) :
  Client.commit (a ++ b) st = Client.commit b (Client.commit a st).
Proof.
  revert st. induction a as [|x a IH]; intros st; simpl; [reflexivity|].
  destruct x; apply IH.
Qed.

Lemma count_app (p : Client.action -> bool) (a b : list Client.action) :
  Client.count p (a ++ b) = (Client.count p a + Client.count p b)%nat.
Proof. unfold Client.count. now rewrite List.filter_app, length_app. Qed.

(** A run of the [try] block that reaches its end never touches the
    credits and issues no further request. *)
Lemma try_block_done (snap : Client.AppState) (now : Z)
    (net : list (Z * Client.net_event)) (done : list Client.action) :
  try_block snap now net = inr done ->
  Client.count Client.is_refund done = 0%nat
  /\ Client.count Client.is_debit done = 0%nat
  /\ Client.count Client.is_fetch done = 0%nat
  /\ forall st, Client.credits (Client.commit done st) = Client.credits st.
Proof.
  unfold Client.try_block. intros H.
  repeat match type of H with
         | context [match ?x with _ => _ end] => destruct x eqn:?; try discriminate
         end.
  injection H as <-. repeat split.
Qed.

Lemma catch_block_refunds (err : Client.exn) :
  Client.count Client.is_refund (Client.catch_block err) = 1%nat
  /\ Client.count Client.is_debit (Client.catch_block err) = 0%nat
  /\ Client.count Client.is_fetch (Client.catch_block err) = 0%nat
  /\ forall st, Client.credits (Client.commit (Client.catch_block err) st)
                = Client.credits st + 2.
Proof. repeat split. Qed.

(** The trace of a request that passed both guards. *)
Lemma handler_started (snap : Client.AppState) (now : Z)
    (net : list (Z * Client.net_event)) :
  blank (Client.lyricsToUse snap) = false -> 2 <= Client.credits snap ->
  Client.handleCreateSongFromLyrics JSON_parse atob createObjectURL snap now net
  = [Client.Update (Client.SetCredits (-2));
     Client.Update (Client.SetIsComposing true);
     Client.Fetch Client.compose_url
       (Client.compose_body snap (Client.lyricsToUse snap))]
    ++ match try_block snap now net with
       | inr done => done
       | inl err => Client.catch_block err
       end
    ++ [Client.Update (Client.SetIsComposing false)].
Proof.
  intros Hl Hc. unfold Client.handleCreateSongFromLyrics.
  rewrite truthy_trim, Hl. simpl. unfold Client.useCredit.
  replace (2 <=? Client.credits snap) with true by (symmetry; apply Z.leb_le; lia).
  reflexivity.
Qed.

Lemma handler_blank (snap : Client.AppState) (now : Z)
    (net : list (Z * Client.net_event)) :
  blank (Client.lyricsToUse snap) = true ->
  Client.handleCreateSongFromLyrics JSON_parse atob createObjectURL snap now net
  = [Client.Alert (lit "Add lyrics first (generate or paste)")].
Proof.
  intros Hl. unfold Client.handleCreateSongFromLyrics.
  now rewrite truthy_trim, Hl.
Qed.

Lemma handler_broke (snap : Client.AppState) (now : Z)
    (net : list (Z * Client.net_event)) :
  blank (Client.lyricsToUse snap) = false -> Client.credits snap < 2 ->
  Client.handleCreateSongFromLyrics JSON_parse atob createObjectURL snap now net
  = [Client.Update (Client.SetIsPaywallOpen true)].
Proof.
  intros Hl Hc. unfold Client.handleCreateSongFromLyrics.
  rewrite truthy_trim, Hl. simpl. unfold Client.useCredit.
  replace (2 <=? Client.credits snap) with false by (symmetry; apply Z.leb_gt; lia).
  reflexivity.
Qed.

End ClientFacts.

(** * The claims *)

Section ClientClaims.

Variable JSON_parse : jsstring -> jsstring + jsval.
Variable atob : jsstring -> option jsstring.
Variable createObjectURL : jsstring -> jsstring.

Local Abbreviation handler :=
  (Client.handleCreateSongFromLyrics JSON_parse atob createObjectURL).
Local Abbreviation completed := (Client.completed JSON_parse atob createObjectURL).

(** C10 (amended). [useCredit(amount)], called on a render that shows the
    current balance, where the balance and the amount are whole numbers in
    the safe range of a double: on a balance of at least [amount] it
    returns true and leaves exactly [amount] less, which is never negative,
    provided the difference is in the safe range as well, where the
    subtraction of doubles is exact; on a smaller balance it returns false
    and changes nothing. *)
Theorem useCredit_debits_or_refuses (st : Client.AppState) (amount : Z)
    (Hbalance : safe_integer (Client.credits st) = true)
    (Hamount : safe_integer amount = true) :
  (amount <= Client.credits st ->
   safe_integer (Client.credits st - amount) = true ->
   fst (Client.useCredit st amount) = true
   /\ Client.credits (Client.commit (snd (Client.useCredit st amount)) st)
      = Client.credits st - amount
   /\ Client.debited (Client.credits st) amount = Client.credits st - amount
   /\ 0 <= Client.credits (Client.commit (snd (Client.useCredit st amount)) st))
  /\ (Client.credits st < amount ->
      fst (Client.useCredit st amount) = false
      /\ Client.commit (snd (Client.useCredit st amount)) st = st).
Proof.
  unfold Client.useCredit. split.
  - intros H Hdiff.
    replace (amount <=? Client.credits st) with true by (symmetry; apply Z.leb_le; lia).
    simpl. repeat split; try lia. unfold Client.debited. now apply to_double_safe.
  - intros H.
    replace (amount <=? Client.credits st) with false by (symmetry; apply Z.leb_gt; lia).
    simpl. split; reflexivity.
Qed.

(** C7. The debit comes before the compose request: in the handler's
    trace every [fetch] is preceded by the debit. When the balance is below
    the cost of 2 the debit fails, no request is issued (so no worker is
    started) and the balance is left unchanged. *)
Theorem no_job_without_debit (snap : Client.AppState) (now : Z)
    (net : list (Z * Client.net_event)) :
  (forall pre url b post,
     handler snap now net = pre ++ Client.Fetch url b :: post ->
     Exists (fun a => Client.is_debit a = true) pre)
  /\ (Client.credits snap < 2 ->
      fst (Client.useCredit snap 2) = false
      /\ Client.count Client.is_fetch (handler snap now net) = 0%nat
      /\ Client.count Client.is_debit (handler snap now net) = 0%nat
      /\ forall st, Client.credits (Client.commit (handler snap now net) st)
                    = Client.credits st).
Proof.
  split.
  - intros pre url b post Heq.
    destruct (blank (Client.lyricsToUse snap)) eqn:Hl.
    { rewrite (handler_blank _ _ _ _ _ _ Hl) in Heq.
      destruct pre as [|a [|a' pre]]; discriminate. }
    destruct (Z_lt_le_dec (Client.credits snap) 2) as [Hc|Hc].
    { rewrite (handler_broke _ _ _ _ _ _ Hl Hc) in Heq.
      destruct pre as [|a [|a' pre]]; discriminate. }
    rewrite (handler_started _ _ _ _ _ _ Hl Hc) in Heq.
    destruct pre as [|a pre]; [discriminate|].
    injection Heq as <- _. now apply Exists_cons_hd.
  - intros Hc. split.
    { unfold Client.useCredit.
      now replace (2 <=? Client.credits snap) with false
        by (symmetry; apply Z.leb_gt; lia). }
    destruct (blank (Client.lyricsToUse snap)) eqn:Hl.
    + rewrite (handler_blank _ _ _ _ _ _ Hl). repeat split.
    + rewrite (handler_broke _ _ _ _ _ _ Hl Hc). repeat split.
Qed.

(** C1. A request that passed the guards is debited 2 credits once. If the
    job ends Completed the debit stands; on any other outcome (the fetch
    aborted or failed, an HTTP error response, an unparsable result) the
    handler refunds 2 credits exactly once, whatever else the network
    delivers afterwards, and the balance is back where it was. *)
Theorem refund_exactly_once (snap : Client.AppState) (now : Z)
    (net : list (Z * Client.net_event))
    (Hlyrics : blank (Client.lyricsToUse snap) = false)
    (Hcredits : 2 <= Client.credits snap) :
  Client.count Client.is_debit (handler snap now net) = 1%nat
  /\ (completed snap now net = true ->
      Client.count Client.is_refund (handler snap now net) = 0%nat
      /\ forall st, Client.credits (Client.commit (handler snap now net) st)
                    = Client.credits st - 2)
  /\ (completed snap now net = false ->
      Client.count Client.is_refund (handler snap now net) = 1%nat
      /\ forall st, Client.credits (Client.commit (handler snap now net) st)
                    = Client.credits st)
  /\ ((exists e, Client.await_fetch net = inl e) -> completed snap now net = false)
  /\ (forall status text,
        Client.await_fetch net = inr (status, text) ->
        Client.ok status = false -> completed snap now net = false)
  /\ (forall status text m,
        Client.await_fetch net = inr (status, text) ->
        JSON_parse text = inl m -> completed snap now net = false).
Proof.
  rewrite (handler_started _ _ _ _ _ _ Hlyrics Hcredits).
  unfold Client.completed.
  destruct (Client.try_block JSON_parse atob createObjectURL snap now net)
    as [err|done] eqn:Htry.
  - destruct (catch_block_refunds err) as (Hr & Hd & _ & Hc).
    rewrite !count_app, Hr, Hd.
    split; [reflexivity|]. split; [discriminate|]. split.
    { intros _. split; [reflexivity|]. intros st.
      rewrite !commit_app. cbn [Client.commit Client.apply_update Client.credits].
      rewrite Hc. cbn [Client.commit Client.apply_update Client.credits]. lia. }
    repeat split; reflexivity.
  - destruct (try_block_done _ _ _ _ _ _ _ Htry) as (Hr & Hd & _ & Hc).
    rewrite !count_app, Hr, Hd.
    split; [reflexivity|]. split.
    { intros _. split; [reflexivity|]. intros st.
      rewrite !commit_app. cbn [Client.commit Client.apply_update Client.credits].
      rewrite Hc. cbn [Client.commit Client.apply_update Client.credits]. lia. }
    split; [discriminate|].
    unfold Client.try_block in Htry. split; [|split].
    + intros [e He]. rewrite He in Htry. discriminate.
    + intros status text He Hok. rewrite He, Hok in Htry. discriminate.
    + intros status text m He Hm. rewrite He in Htry.
      destruct (Client.ok status); [|discriminate].
      simpl in Htry. rewrite Hm in Htry. discriminate.
Qed.

End ClientClaims.

Section ServerClaims.

Variable JSON_parse : jsstring -> jsstring + jsval.
Variable toBase64 : list N -> jsstring.
Variable dir : jsstring.
Variable unlink_fails : list N -> bool.
Variable atob : jsstring -> option jsstring.
Variable createObjectURL : jsstring -> jsstring.

Local Abbreviation compose_song :=
  (compose_song JSON_parse toBase64 dir unlink_fails).
Local Abbreviation callPythonProcessor := (callPythonProcessor JSON_parse dir).
Local Abbreviation handler :=
  (Client.handleCreateSongFromLyrics JSON_parse atob createObjectURL).

(** C2. Lyrics that are empty after trimming are rejected at once, on
    both sides: the route answers 400 [Lyrics required] without spawning a
    worker or touching the disk, and the frontend handler only shows an
    alert, with no debit and no request. *)
Theorem blank_lyrics_rejected (s : jsstring) (Hempty : trim s = []) :
  (forall reqBody d sched,
     get "lyrics" reqBody = Some (JStr s) ->
     sent (compose_song reqBody d sched) = [lyrics_required_response]
     /\ spawned (compose_song reqBody d sched) = None
     /\ files (compose_song reqBody d sched) = d)
  /\ (forall snap now net,
        Client.lyricsToUse snap = s ->
        handler snap now net
        = [Client.Alert (lit "Add lyrics first (generate or paste)")]
        /\ Client.count Client.is_debit (handler snap now net) = 0%nat
        /\ Client.count Client.is_fetch (handler snap now net) = 0%nat
        /\ forall st, Client.commit (handler snap now net) st = st).
Proof.
  split.
  - intros reqBody d sched Hget.
    destruct reqBody; try discriminate. simpl in Hget. injection Hget as Hget.
    unfold Server.compose_song, destructure. simpl. rewrite Hget.
    unfold lyrics_missing. rewrite truthy_trim.
    replace (blank s) with true by (symmetry; now apply trim_nil_blank).
    simpl. destruct s; simpl; repeat split.
  - intros snap now net <-. apply trim_nil_blank in Hempty.
    rewrite (handler_blank _ _ _ _ _ _ Hempty). repeat split.
Qed.


(** Every compose-song invocation sends at most one response, at every
    point of the run, however the timer, the [error] event and the [close]
    event are interleaved. It sends none exactly when the request passed
    validation and [spawn] threw; otherwise it sends exactly one. *)
Lemma at_most_one_response (reqBody : jsval) (d : disk) (sched : schedule) :
  (length (sent (compose_song reqBody d sched)) <= 1)%nat
  /\ (sent (compose_song reqBody d sched) = []
      <-> exists rq,
            accepted reqBody rq /\ spawn_throws (spawn_args dir rq) = true)
  /\ forall rq,
       (length (sent (dispatch compose_timeout_ms timerArmed fire
                        (handle JSON_parse toBase64 unlink_fails rq) sched
                        (running dir rq d)))
        <= 1)%nat.
Proof.
  assert (Hone : length (sent (compose_song reqBody d sched)) = 1%nat
                 -> (length (sent (compose_song reqBody d sched)) <= 1)%nat
                    /\ (sent (compose_song reqBody d sched) = []
                        <-> False)).
  { intros H. split; [lia|]. split; [|tauto]. intros Hnil.
    rewrite Hnil in H. discriminate. }
  split; [|split].
  - unfold accepted, Server.compose_song in *.
    destruct (destructure reqBody) as [rq|]; [|simpl; lia].
    destruct (lyrics_missing (lyrics rq)) as [[|]|]; try (simpl; lia).
    destruct (spawn_throws (spawn_args dir rq)); [simpl; lia|].
    rewrite (raced_run JSON_parse toBase64 unlink_fails rq sched _
               (raced_running dir rq d)). lia.
  - unfold accepted, Server.compose_song in *.
    destruct (destructure reqBody) as [rq|] eqn:Hd.
    2:{ split; [discriminate|]. intros (rq & [H _] & _). discriminate. }
    destruct (lyrics_missing (lyrics rq)) as [[|]|] eqn:Hl.
    + split; [discriminate|]. intros (rq' & [H Hl'] & _).
      injection H as <-. congruence.
    + destruct (spawn_throws (spawn_args dir rq)) eqn:Hsp.
      * split; [|reflexivity]. intros _. exists rq. repeat split; assumption.
      * split.
        -- intros Hnil.
           pose proof (raced_run JSON_parse toBase64 unlink_fails rq sched _
                         (raced_running dir rq d)) as Hlen.
           rewrite Hnil in Hlen. discriminate.
        -- intros (rq' & [H _] & Hsp'). injection H as <-. congruence.
    + split; [discriminate|]. intros (rq' & [H Hl'] & _).
      injection H as <-. congruence.
  - intros rq.
    destruct (raced_dispatch JSON_parse toBase64 unlink_fails rq sched _
                (raced_running dir rq d)) as [_ Hn].
    rewrite Hn. destruct (isResolved _); lia.
Qed.

(** C4. The claim fails on a request whose lyrics contain U+0000. The
    request passes validation, [spawn] throws on the argument inside the
    executor of the promise that the handler returns without [await], so
    neither the listeners nor the handler's [catch] ever answer: whatever
    the schedule, no response is sent, no timer is armed and nothing is
    killed. *)
Theorem no_response_when_spawn_throws (reqBody : jsval) (rq : request)
    (d : disk) (sched : schedule) (s : jsstring)
    (Hacc : accepted reqBody rq)
    (Hlyrics : lyrics rq = JStr s) (Hnul : In 0%N s) :
  sent (compose_song reqBody d sched) = []
  /\ timerArmed (compose_song reqBody d sched) = false
  /\ killed (compose_song reqBody d sched) = false
  /\ files (compose_song reqBody d sched) = d.
Proof.
  assert (Hsp : spawn_throws (spawn_args dir rq) = true).
  { unfold spawn_throws, spawn_args. cbn [existsb]. rewrite Hlyrics.
    replace (has_nul (JStr s)) with true; [now rewrite !orb_true_r|].
    symmetry. apply existsb_exists. exists 0%N. now split. }
  rewrite (compose_song_stranded _ _ _ _ _ _ _ _ Hacc Hsp). repeat split.
Qed.


(** C6 (amended). Cleanup of the scratch audio file belongs to the path
    of a result that claims success: when the worker closes with code 0
    and names a file that can be read, the removal of that file is
    attempted before anything is answered. The file is then gone unless
    the removal itself fails, which is only logged; the answer is the
    success payload, or the failure [Failed to parse synthesis result] when
    the result lacks the [metadata] the payload needs. On every other
    outcome (a result that does not claim success or names no readable
    file, unparsable output, a non-zero exit code, a timeout) the runner
    removes no file. *)
Theorem scratch_file_removed_on_success_only (reqBody : jsval) (rq : request)
    (d : disk) (pre post : schedule) (t : Z)
    (Hacc : accepted reqBody rq)
    (Hspawn : spawn_throws (spawn_args dir rq) = false)
    (Hpre : data_before 120000 pre = true) (Ht : t < 120000) :
  (forall result path bytes,
     JSON_parse (stdout_of pre) = inr result ->
     truthy (prop "success" result) = true ->
     prop "audio_path" result = JStr path -> path <> [] ->
     d !! path = Some bytes ->
     files (compose_song reqBody d (pre ++ (t, CloseEvent (Some 0)) :: post))
     = (if unlink_fails path then d else delete path d)
     /\ (forall structure,
           get "metadata" result ≫= get "structure" = Some structure ->
           sent (compose_song reqBody d (pre ++ (t, CloseEvent (Some 0)) :: post))
           = [success_response rq result (toBase64 bytes) structure])
     /\ (get "metadata" result ≫= get "structure" = None ->
         sent (compose_song reqBody d (pre ++ (t, CloseEvent (Some 0)) :: post))
         = [{| status := 500;
               body := JObj [("error"%string,
                              JStr (lit "Failed to parse synthesis result"));
                             ("details"%string, JStr (stdout_of pre))] |}]))
  /\ (forall result,
        JSON_parse (stdout_of pre) = inr result ->
        truthy (prop "success" result) && truthy (prop "audio_path" result)
        = false
        \/ readFileSync d (prop "audio_path" result) = None ->
        files (compose_song reqBody d (pre ++ (t, CloseEvent (Some 0)) :: post))
        = d)
  /\ (forall m,
        JSON_parse (stdout_of pre) = inl m ->
        files (compose_song reqBody d (pre ++ (t, CloseEvent (Some 0)) :: post))
        = d)
  /\ (forall code,
        code_nonzero code = true ->
        files (compose_song reqBody d (pre ++ (t, CloseEvent code) :: post)) = d)
  /\ (forall sched,
        ends_within 120000 sched = false ->
        files (compose_song reqBody d sched) = d).
Proof.
  assert (Hrun : forall code,
            sent (compose_song reqBody d (pre ++ (t, CloseEvent code) :: post))
            = sent (close_try JSON_parse toBase64 unlink_fails rq code
                      (set_isResolved (clearTimeout
                         (capturing dir rq d (stdout_of pre) (stderr_of pre)))))
            /\ files (compose_song reqBody d (pre ++ (t, CloseEvent code) :: post))
               = files (close_try JSON_parse toBase64 unlink_fails rq code
                          (set_isResolved (clearTimeout
                             (capturing dir rq d (stdout_of pre)
                                (stderr_of pre)))))).
  { intros code. rewrite (compose_song_accepted _ _ _ _ _ _ _ _ Hacc Hspawn).
    now destruct (run_until_close JSON_parse toBase64 dir unlink_fails rq d pre
                    post t code Hpre Ht) as (_ & _ & _ & _ & _ & -> & ->). }
  split; [|split; [|split; [|split]]].
  - intros result path bytes Hparse Hsuccess Hpath Hne Hfile.
    destruct (Hrun (Some 0)) as [-> ->]. unfold close_try. simpl. rewrite Hparse.
    unfold prop in Hsuccess. destruct (get "success" result) as [success|];
      [|discriminate].
    simpl in Hsuccess. rewrite Hsuccess, Hpath. simpl.
    destruct path as [|c path]; [contradiction|]. simpl. rewrite Hfile.
    destruct (get "metadata" result ≫= get "structure") as [structure|];
      simpl; (split; [reflexivity|]); split; try discriminate; try reflexivity.
    intros structure' H. now injection H as <-.
  - intros result Hparse Hcase.
    destruct (Hrun (Some 0)) as [_ ->]. unfold close_try. simpl. rewrite Hparse.
    destruct (get "success" result) as [success|] eqn:Hget; [|reflexivity].
    unfold prop in Hcase at 1. rewrite Hget in Hcase. simpl in Hcase.
    destruct (truthy success && truthy (prop "audio_path" result));
      [|reflexivity].
    destruct Hcase as [Hcase|Hcase]; [discriminate|]. now rewrite Hcase.
  - intros m Hm. destruct (Hrun (Some 0)) as [_ ->]. unfold close_try. simpl.
    now rewrite Hm.
  - intros code Hcode. destruct (Hrun code) as [_ ->]. unfold close_try.
    now rewrite Hcode.
  - intros sched Hnone.
    rewrite (compose_song_accepted _ _ _ _ _ _ _ _ Hacc Hspawn).
    assert (Hp : pending dir rq d (running dir rq d)) by (now exists [], []).
    now destruct (run_times_out _ _ _ _ (pending dir rq d) (pending_armed dir rq d)
             (pending_data JSON_parse toBase64 dir unlink_fails rq d) (timed_out d)
             (timed_out_disarmed d)
             (timed_out_handle JSON_parse toBase64 unlink_fails rq d)
             (fire_pending dir rq d) sched _ Hp Hnone) as (_ & _ & _ & _ & _ & Hd).
Qed.


End ServerClaims.

(** * The claims on concrete runs *)

Lemma useCredit_debits_or_refuses_witness :
  (fst (Client.useCredit (Sample.snapshot 5 [] []) 2) = true
   /\ Client.credits
        (Client.commit (snd (Client.useCredit (Sample.snapshot 5 [] []) 2))
           (Sample.snapshot 5 [] [])) = 3
   /\ Client.debited 5 2 = 3
   /\ 0 <= Client.credits
             (Client.commit (snd (Client.useCredit (Sample.snapshot 5 [] []) 2))
                (Sample.snapshot 5 [] [])))
  /\ (fst (Client.useCredit (Sample.snapshot 1 [] []) 2) = false
      /\ Client.commit (snd (Client.useCredit (Sample.snapshot 1 [] []) 2))
           (Sample.snapshot 1 [] []) = Sample.snapshot 1 [] []).
Proof.
  split.
  - apply (proj1 (useCredit_debits_or_refuses (Sample.snapshot 5 [] []) 2
                    eq_refl eq_refl)); [simpl; lia|reflexivity].
  - apply (proj2 (useCredit_debits_or_refuses (Sample.snapshot 1 [] []) 2
                    eq_refl eq_refl)).
    simpl. lia.
Defined.

(** C10, as stated, fails: a balance of 10^17 is a whole number that a
    double holds, [useCredit(2)] accepts it, and the updater leaves it as
    it was, since the doubles next to 10^17 are 16 apart. *)
Lemma large_balance_not_debited :
  fst (Client.useCredit (Sample.snapshot (10 ^ 17) [] []) 2) = true
  /\ to_double (10 ^ 17) = 10 ^ 17
  /\ Client.debited (10 ^ 17) 2 = 10 ^ 17
  /\ Client.debited (10 ^ 17) 2 <> 10 ^ 17 - 2.
Proof. repeat split; vm_compute; congruence. Qed.

Lemma no_job_without_debit_witness :
  Exists (fun a => Client.is_debit a = true)
    [Client.Update (Client.SetCredits (-2));
     Client.Update (Client.SetIsComposing true)]
  /\ Client.count Client.is_fetch
       (Sample.handleCreateSongFromLyrics
          (Sample.snapshot 1 (lit "la") (lit "120")) 0 Sample.net_good) = 0%nat
  /\ forall st,
       Client.credits
         (Client.commit
            (Sample.handleCreateSongFromLyrics
               (Sample.snapshot 1 (lit "la") (lit "120")) 0 Sample.net_good) st)
       = Client.credits st.
Proof.
  split.
  - apply (proj1 (no_job_without_debit Sample.JSON_parse Sample.atob
                    Sample.createObjectURL
                    (Sample.snapshot 5 (lit "la") (lit "120")) 0 Sample.net_good)
             _ Client.compose_url
             (Client.compose_body (Sample.snapshot 5 (lit "la") (lit "120"))
                (lit "la"))
             (skipn 3 (Sample.handleCreateSongFromLyrics
                         (Sample.snapshot 5 (lit "la") (lit "120")) 0
                         Sample.net_good))).
    vm_compute. reflexivity.
  - destruct (proj2 (no_job_without_debit Sample.JSON_parse Sample.atob
                       Sample.createObjectURL
                       (Sample.snapshot 1 (lit "la") (lit "120")) 0
                       Sample.net_good)) as (_ & Hfetch & _ & Hsame).
    + simpl. lia.
    + split; [exact Hfetch|exact Hsame].
Defined.

Lemma refund_exactly_once_witness :
  (Client.count Client.is_refund
     (Sample.handleCreateSongFromLyrics
        (Sample.snapshot 5 (lit "la") (lit "120")) 0 Sample.net_error) = 1%nat
   /\ forall st,
        Client.credits
          (Client.commit
             (Sample.handleCreateSongFromLyrics
                (Sample.snapshot 5 (lit "la") (lit "120")) 0 Sample.net_error) st)
        = Client.credits st)
  /\ (Client.count Client.is_refund
        (Sample.handleCreateSongFromLyrics
           (Sample.snapshot 5 (lit "la") (lit "120")) 0 Sample.net_good) = 0%nat
      /\ forall st,
           Client.credits
             (Client.commit
                (Sample.handleCreateSongFromLyrics
                   (Sample.snapshot 5 (lit "la") (lit "120")) 0 Sample.net_good) st)
           = Client.credits st - 2).
Proof.
  split.
  - destruct (refund_exactly_once Sample.JSON_parse Sample.atob
                Sample.createObjectURL
                (Sample.snapshot 5 (lit "la") (lit "120")) 0 Sample.net_error)
      as (_ & _ & Hfail & _).
    + reflexivity.
    + simpl. lia.
    + apply Hfail. reflexivity.
  - destruct (refund_exactly_once Sample.JSON_parse Sample.atob
                Sample.createObjectURL
                (Sample.snapshot 5 (lit "la") (lit "120")) 0 Sample.net_good)
      as (_ & Hdone & _).
    + reflexivity.
    + simpl. lia.
    + apply Hdone. reflexivity.
Defined.

Lemma blank_lyrics_rejected_witness :
  (sent (Sample.compose_song (Sample.request_body (lit "  ") (JNum 120))
           Sample.disk_with_song Sample.fast_worker)
   = [lyrics_required_response]
   /\ spawned (Sample.compose_song (Sample.request_body (lit "  ") (JNum 120))
                 Sample.disk_with_song Sample.fast_worker) = None
   /\ files (Sample.compose_song (Sample.request_body (lit "  ") (JNum 120))
               Sample.disk_with_song Sample.fast_worker)
      = Sample.disk_with_song)
  /\ Client.count Client.is_debit
       (Sample.handleCreateSongFromLyrics
          (Sample.snapshot 5 (lit "  ") (lit "120")) 0 Sample.net_good) = 0%nat.
Proof.
  destruct (blank_lyrics_rejected Sample.JSON_parse Sample.toBase64 Sample.dir
              Sample.unlink_fails Sample.atob Sample.createObjectURL (lit "  ")
              eq_refl)
    as [Hserver Hclient].
  split.
  - apply Hserver. reflexivity.
  - now destruct (Hclient (Sample.snapshot 5 (lit "  ") (lit "120")) 0
                    Sample.net_good eq_refl) as (_ & Hdebit & _).
Defined.

Lemma sample_accepted : accepted Sample.body_ok Sample.rq_ok.
Proof. split; reflexivity. Defined.


Lemma nul_accepted : accepted Sample.body_nul Sample.rq_nul.
Proof. split; reflexivity. Defined.

Lemma no_response_when_spawn_throws_witness :
  sent (Sample.compose_song Sample.body_nul Sample.disk_with_song
          Sample.fast_worker) = []
  /\ timerArmed (Sample.compose_song Sample.body_nul Sample.disk_with_song
                   Sample.fast_worker) = false
  /\ killed (Sample.compose_song Sample.body_nul Sample.disk_with_song
               Sample.fast_worker) = false
  /\ files (Sample.compose_song Sample.body_nul Sample.disk_with_song
              Sample.fast_worker) = Sample.disk_with_song.
Proof.
  apply (no_response_when_spawn_throws Sample.JSON_parse Sample.toBase64
           Sample.dir Sample.unlink_fails Sample.body_nul Sample.rq_nul
           Sample.disk_with_song Sample.fast_worker [97; 0; 98]%N nul_accepted
           eq_refl).
  simpl. tauto.
Defined.



Lemma scratch_file_removed_on_success_only_witness :
  files (Sample.compose_song Sample.body_ok Sample.disk_with_song
           Sample.fast_worker) = delete Sample.song_path Sample.disk_with_song
  /\ files (Sample.compose_song_sealed Sample.body_ok Sample.disk_with_song
              Sample.fast_worker) = Sample.disk_with_song
  /\ files (Sample.compose_song Sample.body_ok Sample.disk_with_song
              Sample.crashing_worker) = Sample.disk_with_song
  /\ files (Sample.compose_song Sample.body_ok Sample.disk_with_song
              (Sample.garbage ++ [(30, CloseEvent (Some 0))]))
     = Sample.disk_with_song
  /\ files (Sample.compose_song Sample.body_ok Sample.disk_with_song
              Sample.slow_worker) = Sample.disk_with_song.
Proof.
  split; [|split; [|split; [|split]]].
  - refine (proj1
      (proj1 (scratch_file_removed_on_success_only Sample.JSON_parse
                Sample.toBase64 Sample.dir Sample.unlink_fails Sample.body_ok
                Sample.rq_ok Sample.disk_with_song Sample.pipes [] 500
                sample_accepted eq_refl eq_refl eq_refl)
         Sample.good_result Sample.song_path Sample.song_bytes
         eq_refl eq_refl eq_refl _ _)).
    + discriminate.
    + vm_compute. reflexivity.
  - refine (proj1
      (proj1 (scratch_file_removed_on_success_only Sample.JSON_parse
                Sample.toBase64 Sample.dir (fun _ => true) Sample.body_ok
                Sample.rq_ok Sample.disk_with_song Sample.pipes [] 500
                sample_accepted eq_refl eq_refl eq_refl)
         Sample.good_result Sample.song_path Sample.song_bytes
         eq_refl eq_refl eq_refl _ _)).
    + discriminate.
    + vm_compute. reflexivity.
  - apply (proj1 (proj2 (proj2 (proj2 (scratch_file_removed_on_success_only
                    Sample.JSON_parse Sample.toBase64 Sample.dir
                    Sample.unlink_fails Sample.body_ok Sample.rq_ok
                    Sample.disk_with_song Sample.pipes [] 30 sample_accepted
                    eq_refl eq_refl eq_refl)))) (Some 1)).
    reflexivity.
  - apply (proj1 (proj2 (proj2 (scratch_file_removed_on_success_only
                    Sample.JSON_parse Sample.toBase64 Sample.dir
                    Sample.unlink_fails Sample.body_ok Sample.rq_ok
                    Sample.disk_with_song Sample.garbage [] 30 sample_accepted
                    eq_refl eq_refl eq_refl)))
             (lit "Unexpected token")); reflexivity.
  - apply (proj2 (proj2 (proj2 (proj2 (scratch_file_removed_on_success_only
                    Sample.JSON_parse Sample.toBase64 Sample.dir
                    Sample.unlink_fails Sample.body_ok Sample.rq_ok
                    Sample.disk_with_song [] [] 0 sample_accepted eq_refl
                    eq_refl eq_refl))))).
    reflexivity.
Defined.



(** C6, as stated, fails: after a crash and after a timeout the scratch
    file the worker wrote is still on the disk. *)
Lemma scratch_file_left_behind :
  (sent (Sample.compose_song Sample.body_ok Sample.disk_with_song
           Sample.crashing_worker)
   = [{| status := 500;
         body := JObj [("error"%string, JStr (lit "Song synthesis failed"));
                       ("stderr"%string, JStr (lit "boom"))] |}]
   /\ files (Sample.compose_song Sample.body_ok Sample.disk_with_song
               Sample.crashing_worker) !! Sample.song_path
      = Some Sample.song_bytes)
  /\ (sent (Sample.compose_song Sample.body_ok Sample.disk_with_song
              Sample.slow_worker)
      = [{| status := 500;
            body := JObj [("error"%string, JStr (lit "Song generation timeout"));
                          ("message"%string,
                           JStr (lit "Process took too long (120s)"))] |}]
      /\ files (Sample.compose_song Sample.body_ok Sample.disk_with_song
                  Sample.slow_worker) !! Sample.song_path
         = Some Sample.song_bytes).
Proof. repeat split; vm_compute; reflexivity. Qed.


(** A race on one request: the worker crashes, then an [error] event
    arrives, then more output, all before the deadline. Only the crash is
    answered. *)
Example racing_events_one_response :
  sent (Sample.compose_song Sample.body_ok Sample.disk_with_song
          (Sample.crashing_worker
           ++ [(40, ErrorEvent (lit "EPIPE")); (50, StdoutData (lit "late"));
               (130000, CloseEvent None)]))
  = [synthesis_failed_response (lit "boom")].
Proof. vm_compute. reflexivity. Qed.

(** * Further properties *)

(** ** Invariants of the event loop *)

Section EventLoopInvariant.

Context {S : Type}.
Variable deadline : Z.
Variable armed : S -> bool.
Variable fire : S -> S.
Variable handle : child_event -> S -> S.
Variable inv : S -> Prop.
Hypothesis inv_fire : forall s, armed s = true -> inv s -> inv (fire s).
Hypothesis inv_handle : forall e s, inv s -> inv (handle e s).

Lemma dispatch_invariant (sched : schedule) (s : S) :
  inv s -> inv (dispatch deadline armed fire handle sched s).
Proof.
  revert s. induction sched as [|[t e] rest IH]; intros s Hs; simpl; [exact Hs|].
  apply IH, inv_handle. unfold fire_if_due.
  destruct (armed s) eqn:Ha; simpl; [|exact Hs].
  destruct (deadline <=? t); [now apply inv_fire|exact Hs].
Qed.

Lemma run_invariant (sched : schedule) (s : S) :
  inv s -> inv (run deadline armed fire handle sched s).
Proof.
  intros Hs. apply (dispatch_invariant sched) in Hs. unfold run, settle.
  destruct (armed (dispatch deadline armed fire handle sched s)) eqn:Ha;
    [now apply inv_fire|exact Hs].
Qed.

(** When the loop is done the timer is no longer armed, provided firing
    disarms it. *)
Lemma run_disarmed (Hfire : forall s, armed (fire s) = false)
    (sched : schedule) (s : S) :
  armed (run deadline armed fire handle sched s) = false.
Proof.
  unfold run, settle.
  destruct (armed (dispatch deadline armed fire handle sched s)) eqn:Ha;
    [apply Hfire|exact Ha].
Qed.

End EventLoopInvariant.

(** ** [callPythonProcessor], once more *)

Section CallOutcomes.

Variable JSON_parse : jsstring -> jsstring + jsval.
Variable dir : jsstring.

Local Abbreviation callPythonProcessor := (callPythonProcessor JSON_parse dir).

Ltac distinct_settlement :=
  let H := fresh in intros H; cbv in H; congruence.

Lemma call_fire_disarms (c : call) : callArmed (call_fire c) = false.
Proof. unfold call_fire, call_on_timeout. simpl. now destruct (callResolved c). Qed.

(** The promise is settled exactly when the timer is no longer armed;
    it is then settled once, and with the timeout error exactly when the
    child was killed. *)
Lemma call_race_fire (c : call) :
  callArmed c = true ->
  (callResolved c = negb (callArmed c)
   /\ (if callResolved c
       then exists o, settled c = [o]
                      /\ (callKilled c = true <-> o = call_timeout_error)
       else settled c = [] /\ callKilled c = false)) ->
  callResolved (call_fire c) = negb (callArmed (call_fire c))
  /\ (if callResolved (call_fire c)
      then exists o, settled (call_fire c) = [o]
                     /\ (callKilled (call_fire c) = true <-> o = call_timeout_error)
      else settled (call_fire c) = [] /\ callKilled (call_fire c) = false).
Proof.
  intros Ha [Hr Hs]. rewrite Ha in Hr. simpl in Hr. rewrite Hr in Hs.
  destruct Hs as [Hs Hk]. unfold call_fire, call_on_timeout. simpl. rewrite Hr.
  simpl. split; [reflexivity|]. rewrite Hs. eexists. split; [reflexivity|].
  split; reflexivity.
Qed.

Lemma call_race_handle (e : child_event) (c : call) :
  (callResolved c = negb (callArmed c)
   /\ (if callResolved c
       then exists o, settled c = [o]
                      /\ (callKilled c = true <-> o = call_timeout_error)
       else settled c = [] /\ callKilled c = false)) ->
  callResolved (call_handle JSON_parse e c)
  = negb (callArmed (call_handle JSON_parse e c))
  /\ (if callResolved (call_handle JSON_parse e c)
      then exists o, settled (call_handle JSON_parse e c) = [o]
                     /\ (callKilled (call_handle JSON_parse e c) = true
                         <-> o = call_timeout_error)
      else settled (call_handle JSON_parse e c) = []
           /\ callKilled (call_handle JSON_parse e c) = false).
Proof.
  intros [Hr Hs]. destruct e; simpl.
  - split; assumption.
  - split; assumption.
  - unfold call_on_error. simpl. destruct (callResolved c) eqn:Hres; simpl.
    + rewrite Hres. split; [reflexivity|exact Hs].
    + destruct Hs as [Hs Hk]. split; [reflexivity|]. rewrite Hs.
      eexists. split; [reflexivity|]. rewrite Hk.
      split; [discriminate|]. distinct_settlement.
  - unfold call_on_close. simpl. destruct (callResolved c) eqn:Hres; simpl.
    + rewrite Hres. split; [reflexivity|exact Hs].
    + destruct Hs as [Hs Hk].
      destruct (code_nonzero code); [|destruct (JSON_parse (stdout c))]; simpl;
        (split; [reflexivity|]); rewrite Hs; (eexists; split; [reflexivity|]);
        rewrite Hk; (split; [discriminate|]); distinct_settlement.
Qed.

Lemma call_settled_singleton (command audioPath : jsval) (args : list jsval)
    (sched : schedule) :
  exists o,
    settled (callPythonProcessor command audioPath args sched) = [o]
    /\ (callKilled (callPythonProcessor command audioPath args sched) = true
        <-> o = call_timeout_error).
Proof.
  unfold Server.callPythonProcessor.
  pose proof (run_invariant processor_timeout_ms callArmed call_fire
                (call_handle JSON_parse) _ call_race_fire call_race_handle sched
                (call_running dir command audioPath args)) as Hinv.
  pose proof (run_disarmed processor_timeout_ms callArmed call_fire
                (call_handle JSON_parse) call_fire_disarms sched
                (call_running dir command audioPath args)) as Hdis.
  destruct Hinv as [Hr Hs]; [split; [reflexivity|]; simpl; split; reflexivity|].
  rewrite Hdis in Hr. simpl in Hr. rewrite Hr in Hs. exact Hs.
Qed.

(** X1. Whatever the child does, the promise returned by
    [callPythonProcessor] is settled exactly once, and the child is killed
    exactly when that settlement is the timeout error. *)
Theorem call_settles_once (command audioPath : jsval) (args : list jsval)
    (sched : schedule) :
  exists o,
    settled (callPythonProcessor command audioPath args sched) = [o]
    /\ (callKilled (callPythonProcessor command audioPath args sched) = true
        <-> o = call_timeout_error).
Proof. apply call_settled_singleton. Qed.

(** The call while the child is still running, with the text captured
    so far: pipe events before the deadline only grow it. *)
Lemma call_dispatch_data (command audioPath : jsval) (args : list jsval)
    (pre : schedule) :
  data_before processor_timeout_ms pre = true ->
  forall out err,
    dispatch processor_timeout_ms callArmed call_fire (call_handle JSON_parse) pre
      {| argv := JStr (AUDIO_PROCESSOR_PATH dir) :: command :: audioPath :: args;
         stdout := out; stderr := err; callResolved := false; callArmed := true;
         callFired := false; callKilled := false; settled := [] |}
    = {| argv := JStr (AUDIO_PROCESSOR_PATH dir) :: command :: audioPath :: args;
         stdout := out ++ stdout_of pre; stderr := err ++ stderr_of pre;
         callResolved := false; callArmed := true;
         callFired := false; callKilled := false; settled := [] |}.
Proof.
  induction pre as [|[t e] pre IH]; intros Hpre out err.
  - simpl. now rewrite !app_nil_r.
  - simpl in Hpre. apply andb_true_iff in Hpre as [Hhead Hpre].
    apply andb_true_iff in Hhead as [He Ht]. apply Z.ltb_lt in Ht.
    cbn [Server.dispatch]. unfold fire_if_due.
    replace (processor_timeout_ms <=? t) with false
      by (symmetry; apply Z.leb_gt; lia).
    rewrite andb_false_r.
    destruct e; try discriminate; cbn [call_handle stdout_of stderr_of];
      cbn [argv stdout stderr callResolved callArmed callFired callKilled settled];
      rewrite (IH Hpre); now rewrite <- app_assoc.
Qed.

Lemma call_settled_stable (sched : schedule) (c : call) :
  callResolved c = true -> callArmed c = false ->
  settled (run processor_timeout_ms callArmed call_fire (call_handle JSON_parse)
             sched c) = settled c
  /\ callKilled (run processor_timeout_ms callArmed call_fire
                   (call_handle JSON_parse) sched c) = callKilled c.
Proof.
  intros Hr Ha.
  apply (quiet_run processor_timeout_ms callArmed call_fire (call_handle JSON_parse)
           (fun c' => callResolved c' = true /\ callArmed c' = false
                      /\ settled c' = settled c /\ callKilled c' = callKilled c)).
  - now intros s (_ & H & _).
  - intros e s (Hr' & Ha' & Hs' & Hk').
    destruct (call_handle_resolved JSON_parse e s Hr' Ha') as (? & ? & _ & ? & ?).
    repeat split; congruence.
  - repeat split; assumption.
Qed.

Lemma call_outcome_of_end (command audioPath : jsval) (args : list jsval)
    (pre post : schedule) (t : Z) (e : child_event)
    (Hpre : data_before 60000 pre = true) (Ht : t < 60000)
    (Hends : ends_job e = true) :
  settled (callPythonProcessor command audioPath args (pre ++ (t, e) :: post))
  = [match e with
     | CloseEvent code =>
         if code_nonzero code then
           Rejected (lit "Python process failed (code " ++ String_code code
                     ++ lit "): " ++ stderr_of pre)
         else match JSON_parse (stdout_of pre) with
              | inr result => Resolved result
              | inl m => Rejected (lit "Failed to parse Python output: " ++ m)
              end
     | ErrorEvent m => Rejected (lit "Python spawn error: " ++ m)
     | _ => call_timeout_error
     end]
  /\ callKilled (callPythonProcessor command audioPath args
                   (pre ++ (t, e) :: post)) = false.
Proof.
  change 60000 with processor_timeout_ms in *.
  unfold Server.callPythonProcessor, run. rewrite dispatch_app.
  unfold call_running. rewrite (call_dispatch_data _ _ _ _ Hpre).
  cbn [Server.dispatch]. unfold fire_if_due.
  replace (processor_timeout_ms <=? t) with false by (symmetry; apply Z.leb_gt; lia).
  rewrite andb_false_r. simpl app.
  match goal with
  | |- context [dispatch _ _ _ _ post ?c] =>
      assert (Hc : callResolved c = true /\ callArmed c = false
                   /\ callKilled c = false
                   /\ settled c
                      = [match e with
                         | CloseEvent code =>
                             if code_nonzero code then
                               Rejected (lit "Python process failed (code "
                                         ++ String_code code
                                         ++ lit "): " ++ stderr_of pre)
                             else match JSON_parse (stdout_of pre) with
                                  | inr result => Resolved result
                                  | inl m =>
                                      Rejected (lit "Failed to parse Python output: " ++ m)
                                  end
                         | ErrorEvent m => Rejected (lit "Python spawn error: " ++ m)
                         | _ => call_timeout_error
                         end]);
      [|destruct Hc as (Hr & Ha & Hk & Hs);
        destruct (call_settled_stable post c Hr Ha) as [Hs' Hk'];
        fold (settle callArmed call_fire
                (dispatch processor_timeout_ms callArmed call_fire
                   (call_handle JSON_parse) post c));
        fold (run processor_timeout_ms callArmed call_fire
                (call_handle JSON_parse) post c);
        rewrite Hs', Hk'; split; assumption]
  end.
  destruct e; try discriminate; simpl.
  - unfold call_on_error. simpl. repeat split.
  - unfold call_on_close. simpl.
    destruct (code_nonzero code); [repeat split|].
    destruct (JSON_parse (stdout_of pre)); repeat split.
Qed.

(** X2. A child that ends before the 60 s ceiling settles the promise by
    what it did: a non-zero exit code rejects with the code and everything
    written to stderr, exit 0 resolves with the parsed stdout, exit 0 with
    unparsable stdout rejects with the parser's message, and an [error]
    event rejects with a spawn error. The child is not killed. *)
Theorem call_outcome_by_exit (command audioPath : jsval) (args : list jsval)
    (pre post : schedule) (t : Z)
    (Hpre : data_before 60000 pre = true) (Ht : t < 60000) :
  (forall code,
     code_nonzero code = true ->
     settled (callPythonProcessor command audioPath args
                (pre ++ (t, CloseEvent code) :: post))
     = [Rejected (lit "Python process failed (code " ++ String_code code
                  ++ lit "): " ++ stderr_of pre)])
  /\ (forall result,
        JSON_parse (stdout_of pre) = inr result ->
        settled (callPythonProcessor command audioPath args
                   (pre ++ (t, CloseEvent (Some 0)) :: post))
        = [Resolved result])
  /\ (forall m,
        JSON_parse (stdout_of pre) = inl m ->
        settled (callPythonProcessor command audioPath args
                   (pre ++ (t, CloseEvent (Some 0)) :: post))
        = [Rejected (lit "Failed to parse Python output: " ++ m)])
  /\ (forall m,
        settled (callPythonProcessor command audioPath args
                   (pre ++ (t, ErrorEvent m) :: post))
        = [Rejected (lit "Python spawn error: " ++ m)])
  /\ (forall e,
        ends_job e = true ->
        callKilled (callPythonProcessor command audioPath args
                     (pre ++ (t, e) :: post)) = false).
Proof.
  split; [|split; [|split; [|split]]].
  - intros code Hcode.
    destruct (call_outcome_of_end command audioPath args pre post t
                (CloseEvent code) Hpre Ht eq_refl) as [-> _].
    now rewrite Hcode.
  - intros result Hparse.
    destruct (call_outcome_of_end command audioPath args pre post t
                (CloseEvent (Some 0)) Hpre Ht eq_refl) as [-> _].
    simpl. now rewrite Hparse.
  - intros m Hparse.
    destruct (call_outcome_of_end command audioPath args pre post t
                (CloseEvent (Some 0)) Hpre Ht eq_refl) as [-> _].
    simpl. now rewrite Hparse.
  - intros m.
    now destruct (call_outcome_of_end command audioPath args pre post t
                    (ErrorEvent m) Hpre Ht eq_refl) as [-> _].
  - intros e He.
    now destruct (call_outcome_of_end command audioPath args pre post t e
                    Hpre Ht He) as [_ ->].
Qed.

End CallOutcomes.

(** ** The compose-song job, once more *)

Section JobOutcomes.

Variable JSON_parse : jsstring -> jsstring + jsval.
Variable toBase64 : list N -> jsstring.
Variable dir : jsstring.
Variable unlink_fails : list N -> bool.

Local Abbreviation close_try := (close_try JSON_parse toBase64 unlink_fails).
Local Abbreviation handle := (handle JSON_parse toBase64 unlink_fails).
Local Abbreviation compose_song :=
  (compose_song JSON_parse toBase64 dir unlink_fails).
Local Abbreviation loop rq :=
  (run compose_timeout_ms timerArmed fire (handle rq)).
Local Abbreviation answered := (Outcome.answered toBase64 unlink_fails).
Local Abbreviation job_race := (Outcome.job_race toBase64 dir unlink_fails).

Lemma readFileSync_some (d : disk) (p : jsval) (path bytes : list N) :
  readFileSync d p = Some (path, bytes) -> p = JStr path /\ d !! path = Some bytes.
Proof.
  destruct p; try discriminate. simpl.
  destruct (d !! s) eqn:Hs; [|discriminate]. intros H. injection H as <- <-.
  split; [reflexivity|exact Hs].
Qed.

(** What the [try] block of the [close] listener answers and does to
    the disk. *)
Lemma close_try_answered (rq : request) (code : option Z) (j : job) :
  exists r,
    sent (close_try rq code j) = sent j ++ [r]
    /\ r <> timeout_response
    /\ answered rq (files j) r (files (close_try rq code j)).
Proof.
  unfold Server.close_try.
  destruct (code_nonzero code).
  { eexists. split; [reflexivity|]. split; [intros H; cbv in H; congruence|].
    left. split; [reflexivity|now left]. }
  destruct (JSON_parse (stdoutData j)) as [m|result].
  { eexists. split; [reflexivity|]. split; [intros H; cbv in H; congruence|].
    left. split; [reflexivity|now left]. }
  destruct (get "success" result) as [success|].
  2:{ eexists. split; [reflexivity|]. split; [intros H; cbv in H; congruence|].
      left. split; [reflexivity|now left]. }
  destruct (truthy success && truthy (prop "audio_path" result)).
  2:{ eexists. split; [reflexivity|]. split; [intros H; cbv in H; congruence|].
      left. split; [reflexivity|now left]. }
  destruct (readFileSync (files j) (prop "audio_path" result))
    as [[path bytes]|] eqn:Hread.
  2:{ eexists. split; [reflexivity|]. split; [intros H; cbv in H; congruence|].
      left. split; [reflexivity|now left]. }
  apply readFileSync_some in Hread as [Hpath Hfile].
  destruct (get "metadata" result ≫= get "structure") as [structure|].
  - eexists. split; [reflexivity|]. split; [intros H; cbv in H; congruence|].
    right. exists result, path, bytes, structure. repeat split; assumption.
  - eexists. split; [reflexivity|]. split; [intros H; cbv in H; congruence|].
    left. split; [reflexivity|]. simpl.
    destruct (unlink_fails path); [now left|].
    right. exists path, bytes. split; [exact Hfile|reflexivity].
Qed.

Lemma job_race_running (rq : request) (d : disk) : job_race rq d (running dir rq d).
Proof. repeat split. Qed.

Lemma job_race_fire (rq : request) (d : disk) (j : job) :
  timerArmed j = true -> job_race rq d j -> job_race rq d (fire j).
Proof.
  unfold Outcome.job_race. intros Ha (Hr & Hsp & Hs).
  rewrite Ha in Hr. simpl in Hr. rewrite Hr in Hs.
  destruct Hs as (Hs & Hk & Hd). unfold fire, on_timeout. simpl. rewrite Hr.
  split; [reflexivity|]. split; [exact Hsp|]. simpl. rewrite Hs.
  eexists. split; [reflexivity|]. split; [split; reflexivity|].
  left. split; [reflexivity|now left].
Qed.

Lemma job_race_handle (rq : request) (d : disk) (e : child_event) (j : job) :
  job_race rq d j -> job_race rq d (handle rq e j).
Proof.
  unfold Outcome.job_race. intros (Hr & Hsp & Hs). destruct e; simpl.
  - repeat split; assumption.
  - repeat split; assumption.
  - unfold on_error. simpl. destruct (isResolved j) eqn:Hres; simpl.
    + rewrite Hres. repeat split; assumption.
    + destruct Hs as (Hs & Hk & Hd). split; [reflexivity|]. split; [exact Hsp|].
      rewrite Hs. eexists. split; [reflexivity|]. rewrite Hk. split.
      * split; [discriminate|]. intros H. cbv in H. congruence.
      * left. split; [reflexivity|now left].
  - unfold Server.on_close. simpl. destruct (isResolved j) eqn:Hres; simpl.
    + rewrite Hres. repeat split; assumption.
    + destruct Hs as (Hs & Hk & Hd).
      destruct (close_try_sends_one JSON_parse toBase64 unlink_fails rq code
                  (set_isResolved (clearTimeout j)))
        as (r0 & _ & _ & Hsp' & Hr' & Ha' & _ & Hk' & _).
      destruct (close_try_answered rq code (set_isResolved (clearTimeout j)))
        as (r & Hsent & Hne & Hans).
      split; [now rewrite Hr', Ha'|]. split; [now rewrite Hsp'|].
      rewrite Hr'. simpl. simpl in Hsent, Hans, Hk'. rewrite Hs in Hsent.
      exists r. split; [exact Hsent|]. rewrite Hk', Hk, <- Hd.
      split; [|exact Hans]. split; [discriminate|]. intros ->. contradiction.
Qed.

Lemma fire_disarms (j : job) : timerArmed (fire j) = false.
Proof. unfold fire, on_timeout. simpl. now destruct (isResolved j). Qed.

(** Every accepted request for which [spawn] returns a child ends
    resolved, with the invariant. *)
Lemma job_race_done (reqBody : jsval) (rq : request) (d : disk) (sched : schedule) :
  accepted reqBody rq -> spawn_throws (spawn_args dir rq) = false ->
  spawned (compose_song reqBody d sched) = Some (spawn_args dir rq)
  /\ exists r,
       sent (compose_song reqBody d sched) = [r]
       /\ (killed (compose_song reqBody d sched) = true <-> r = timeout_response)
       /\ answered rq d r (files (compose_song reqBody d sched)).
Proof.
  intros Hacc Hsp. rewrite (compose_song_accepted _ _ _ _ _ _ _ _ Hacc Hsp).
  pose proof (run_invariant compose_timeout_ms timerArmed fire (handle rq)
                (job_race rq d) (job_race_fire rq d) (job_race_handle rq d) sched
                (running dir rq d) (job_race_running rq d)) as (Hr & Hsp' & Hs).
  rewrite (run_disarmed compose_timeout_ms timerArmed fire (handle rq) fire_disarms)
    in Hr.
  simpl in Hr. rewrite Hr in Hs. split; assumption.
Qed.

(** The argument vector passed to [spawn], whether it returns or throws. *)
Lemma spawned_accepted (reqBody : jsval) (rq : request) (d : disk)
    (sched : schedule) :
  accepted reqBody rq ->
  spawned (compose_song reqBody d sched) = Some (spawn_args dir rq).
Proof.
  intros Hacc. destruct (spawn_throws (spawn_args dir rq)) eqn:Hsp.
  - now rewrite (compose_song_stranded _ _ _ _ _ _ _ _ Hacc Hsp).
  - now destruct (job_race_done reqBody rq d sched Hacc Hsp).
Qed.

(** A response was sent: [spawn] returned a child, and the invariant
    holds of that response. *)
Lemma sent_one_answered (reqBody : jsval) (rq : request) (d : disk)
    (sched : schedule) (r : response) :
  accepted reqBody rq -> sent (compose_song reqBody d sched) = [r] ->
  spawn_throws (spawn_args dir rq) = false
  /\ (killed (compose_song reqBody d sched) = true <-> r = timeout_response)
  /\ answered rq d r (files (compose_song reqBody d sched)).
Proof.
  intros Hacc Hsent. destruct (spawn_throws (spawn_args dir rq)) eqn:Hsp.
  - rewrite (compose_song_stranded _ _ _ _ _ _ _ _ Hacc Hsp) in Hsent.
    discriminate.
  - split; [reflexivity|].
    destruct (job_race_done reqBody rq d sched Hacc Hsp) as (_ & r' & Hs & H).
    rewrite Hsent in Hs. injection Hs as <-. exact H.
Qed.

(** X3. For every accepted request and every schedule, the worker is
    killed exactly when the one response sent is the timeout response: a
    worker that ended by itself is never killed, and no timeout is answered
    without the kill. *)
Theorem worker_killed_iff_timed_out (reqBody : jsval) (rq : request) (d : disk)
    (sched : schedule) (Hacc : accepted reqBody rq) :
  killed (compose_song reqBody d sched) = true
  <-> sent (compose_song reqBody d sched) = [timeout_response].
Proof.
  destruct (spawn_throws (spawn_args dir rq)) eqn:Hsp.
  - rewrite (compose_song_stranded _ _ _ _ _ _ _ _ Hacc Hsp). simpl.
    split; discriminate.
  - destruct (job_race_done reqBody rq d sched Hacc Hsp) as (_ & r & Hs & Hk & _).
    rewrite Hs, Hk. split; [now intros ->|]. intros H. now injection H.
Qed.


(** The state in which the listener of the first [error] or [close]
    leaves a job that was still capturing; the rest of the schedule cannot
    disturb it. *)
Lemma run_until_end (rq : request) (d : disk) (pre post : schedule) (t : Z)
    (e : child_event) :
  data_before compose_timeout_ms pre = true -> t < compose_timeout_ms ->
  ends_job e = true ->
  same_outcome
    (handle rq e (capturing dir rq d (stdout_of pre) (stderr_of pre)))
    (loop rq (pre ++ (t, e) :: post) (running dir rq d)).
Proof.
  intros Hpre Ht He. unfold run. rewrite dispatch_app, running_capturing.
  rewrite (dispatch_data JSON_parse toBase64 dir unlink_fails) by exact Hpre.
  cbn [Server.dispatch app]. unfold fire_if_due.
  replace (compose_timeout_ms <=? t) with false by (symmetry; apply Z.leb_gt; lia).
  rewrite andb_false_r.
  destruct (end_pending JSON_parse toBase64 dir unlink_fails rq d e
              (capturing dir rq d (stdout_of pre) (stderr_of pre)))
    as (Hr & Ha & _); [now eexists _, _|exact He|].
  apply resolved_stable; assumption.
Qed.

(** X5. When the child cannot be started, so that [error] is the first
    thing it raises, the route answers 500 [Failed to start song generator]
    with the error's message as [detail]; nothing is killed and the disk is
    untouched. (Where [spawn] itself throws there is no child to raise
    anything, and nothing is answered.) *)
Theorem spawn_failure_answered (reqBody : jsval) (rq : request) (d : disk)
    (pre post : schedule) (t : Z) (m : jsstring)
    (Hacc : accepted reqBody rq)
    (Hpre : data_before 120000 pre = true) (Ht : t < 120000) :
  sent (compose_song reqBody d (pre ++ (t, ErrorEvent m) :: post))
  = (if spawn_throws (spawn_args dir rq) then []
     else [spawn_error_response m])
  /\ killed (compose_song reqBody d (pre ++ (t, ErrorEvent m) :: post)) = false
  /\ files (compose_song reqBody d (pre ++ (t, ErrorEvent m) :: post)) = d.
Proof.
  destruct (spawn_throws (spawn_args dir rq)) eqn:Hsp.
  { rewrite (compose_song_stranded _ _ _ _ _ _ _ _ Hacc Hsp). repeat split. }
  rewrite (compose_song_accepted _ _ _ _ _ _ _ _ Hacc Hsp).
  destruct (run_until_end rq d pre post t (ErrorEvent m) Hpre Ht eq_refl)
    as (_ & _ & _ & _ & Hk & Hs & Hf).
  rewrite Hk, Hs, Hf. repeat split.
Qed.

(** X6. A worker that exits 0 and prints a result other than [null]
    that does not claim success (no truthy [success], or no truthy
    [audio_path]) is answered
    500 with the result's own [error], or [Song synthesis failed] when it
    has none, next to the captured stderr; no file is read or removed.
    (Where [spawn] itself throws there is no worker, and nothing is
    answered.) *)
Theorem reported_failure_answered (reqBody : jsval) (rq : request) (d : disk)
    (pre post : schedule) (t : Z) (result : jsval)
    (Hacc : accepted reqBody rq)
    (Hpre : data_before 120000 pre = true) (Ht : t < 120000)
    (Hparse : JSON_parse (stdout_of pre) = inr result)
    (Hnull : result <> JNull) (Hundefined : result <> JUndefined)
    (Hfailed : truthy (prop "success" result)
               && truthy (prop "audio_path" result) = false) :
  sent (compose_song reqBody d (pre ++ (t, CloseEvent (Some 0)) :: post))
  = (if spawn_throws (spawn_args dir rq) then []
     else [status_json 500
             (JObj [("error"%string,
                     or (prop "error" result) (JStr (lit "Song synthesis failed")));
                    ("stderr"%string, JStr (stderr_of pre))])])
  /\ files (compose_song reqBody d (pre ++ (t, CloseEvent (Some 0)) :: post)) = d.
Proof.
  destruct (spawn_throws (spawn_args dir rq)) eqn:Hsp.
  { rewrite (compose_song_stranded _ _ _ _ _ _ _ _ Hacc Hsp). repeat split. }
  rewrite (compose_song_accepted _ _ _ _ _ _ _ _ Hacc Hsp).
  destruct (run_until_end rq d pre post t (CloseEvent (Some 0)) Hpre Ht eq_refl)
    as (_ & _ & _ & _ & _ & Hs & Hf).
  rewrite Hs, Hf. simpl. unfold Server.on_close, Server.close_try. simpl.
  rewrite Hparse. unfold prop in Hfailed.
  destruct (get "success" result) as [success|] eqn:Hget.
  - simpl in Hfailed. unfold prop. rewrite Hfailed. split; reflexivity.
  - destruct result; try discriminate; contradiction.
Qed.

(** X7. A worker that was started, exits 0 and claims success without a
    servable result is answered 500 [Failed to parse synthesis result] with
    the captured stdout. If the file it names is not on the disk, nothing
    is removed; if the file is there but the result has no [metadata] to
    read [structure] from, the removal of the file has been attempted by
    the time the failure is answered, and the file is gone unless that
    removal failed. *)
Theorem unservable_success_answered (reqBody : jsval) (rq : request) (d : disk)
    (pre post : schedule) (t : Z) (result : jsval) (path : list N)
    (Hacc : accepted reqBody rq)
    (Hspawn : spawn_throws (spawn_args dir rq) = false)
    (Hpre : data_before 120000 pre = true) (Ht : t < 120000)
    (Hparse : JSON_parse (stdout_of pre) = inr result)
    (Hsuccess : truthy (prop "success" result) = true)
    (Hpath : prop "audio_path" result = JStr path) (Hne : path <> []) :
  (d !! path = None ->
   sent (compose_song reqBody d (pre ++ (t, CloseEvent (Some 0)) :: post))
   = [parse_failed_response (stdout_of pre)]
   /\ files (compose_song reqBody d (pre ++ (t, CloseEvent (Some 0)) :: post)) = d)
  /\ (forall bytes,
        d !! path = Some bytes ->
        get "metadata" result ≫= get "structure" = None ->
        sent (compose_song reqBody d (pre ++ (t, CloseEvent (Some 0)) :: post))
        = [parse_failed_response (stdout_of pre)]
        /\ files (compose_song reqBody d (pre ++ (t, CloseEvent (Some 0)) :: post))
           = (if unlink_fails path then d else delete path d)).
Proof.
  rewrite (compose_song_accepted _ _ _ _ _ _ _ _ Hacc Hspawn).
  destruct (run_until_end rq d pre post t (CloseEvent (Some 0)) Hpre Ht eq_refl)
    as (_ & _ & _ & _ & _ & Hs & Hf).
  rewrite Hs, Hf. simpl. unfold Server.on_close, Server.close_try. simpl.
  rewrite Hparse. unfold prop in Hsuccess.
  destruct (get "success" result) as [success|] eqn:Hget; [|discriminate].
  simpl in Hsuccess. rewrite Hsuccess, Hpath.
  destruct path as [|c path]; [contradiction|]. simpl.
  split.
  - intros ->. split; reflexivity.
  - intros bytes -> ->. split; reflexivity.
Qed.

(** X8. A request whose [lyrics] is not a string never reaches a worker:
    a falsy value (absent, [null], [false], 0, NaN) is answered 400
    [Lyrics required], a truthy one (a number, [true], an array, an object)
    makes [lyrics.trim] throw and is answered 500 [Song composition
    failed]. *)
Theorem non_string_lyrics_rejected (reqBody l : jsval) (d : disk)
    (sched : schedule)
    (Hlyrics : get "lyrics" reqBody = Some l)
    (Hother : forall s, l <> JStr s) :
  sent (compose_song reqBody d sched)
  = [if truthy l then composition_failed_response type_error_message
     else lyrics_required_response]
  /\ spawned (compose_song reqBody d sched) = None
  /\ files (compose_song reqBody d sched) = d.
Proof.
  unfold Server.compose_song.
  assert (Hd : exists rq, destructure reqBody = Some rq /\ lyrics rq = l).
  { destruct reqBody; try discriminate; simpl in Hlyrics;
      injection Hlyrics as <-; eexists; split; reflexivity. }
  destruct Hd as (rq & -> & Hl). rewrite Hl. unfold lyrics_missing.
  destruct (truthy l) eqn:Htruthy; simpl.
  - destruct l; try discriminate Htruthy; try (repeat split; fail).
    exfalso. now eapply Hother.
  - repeat split.
Qed.


End JobOutcomes.

(** ** The routes that run [audio_processor.py] *)

Section RouteFacts.

Variable JSON_parse : jsstring -> jsstring + jsval.
Variable dir : jsstring.

Local Abbreviation callPythonProcessor := (callPythonProcessor JSON_parse dir).
Local Abbreviation processor_route := (Routes.processor_route JSON_parse dir).

Lemma call_times_out (command audioPath : jsval) (args : list jsval)
    (sched : schedule) :
  ends_within processor_timeout_ms sched = false ->
  settled (callPythonProcessor command audioPath args sched) = [call_timeout_error].
Proof.
  intros Hnone.
  now destruct (run_times_out _ _ _ _ call_pending call_pending_armed
                  (call_pending_data JSON_parse) call_timed_out
                  call_timed_out_disarmed (call_timed_out_handle JSON_parse)
                  call_fire_pending sched _
                  (call_running_pending dir command audioPath args) Hnone)
    as (_ & _ & _ & _ & Hs).
Qed.

(** X10. Each of the routes /api/analyze-audio, /api/ai-mastering and
    /api/stem-separation sends exactly one response, with or without an
    upload and whatever the worker does. *)
Theorem processor_route_answers_once (r : Routes.route) (file : option (list N))
    (d : disk) (sched : schedule) :
  length (Routes.answers (processor_route r file d sched)) = 1%nat.
Proof.
  unfold Routes.processor_route. destruct file as [path|]; [|reflexivity].
  destruct (call_settled_singleton JSON_parse dir (JStr (Routes.command r))
              (JStr path) (Routes.extra_args r) sched) as (o & -> & _).
  now destruct o.
Qed.

(** X11. When the call to the audio processor fails, the route answers
    500 with its own label and the rejection's message as [detail], and
    the uploaded file is left on the disk. This is so when the worker
    outlives the 60 s ceiling, when it exits with a non-zero code, when its
    output does not parse and when it cannot be started. *)
Theorem failed_call_keeps_upload (r : Routes.route) (path : list N) (d : disk)
    (pre post : schedule) (t : Z)
    (Hpre : data_before 60000 pre = true) (Ht : t < 60000) :
  (forall sched,
     ends_within 60000 sched = false ->
     Routes.answers (processor_route r (Some path) d sched)
     = [Routes.route_failed r (lit "Python process timeout (60s)")]
     /\ Routes.disk_after (processor_route r (Some path) d sched) = d)
  /\ (forall code,
        code_nonzero code = true ->
        Routes.answers (processor_route r (Some path) d
                          (pre ++ (t, CloseEvent code) :: post))
        = [Routes.route_failed r
             (lit "Python process failed (code " ++ String_code code
              ++ lit "): " ++ stderr_of pre)]
        /\ Routes.disk_after (processor_route r (Some path) d
                                (pre ++ (t, CloseEvent code) :: post)) = d)
  /\ (forall m,
        JSON_parse (stdout_of pre) = inl m ->
        Routes.answers (processor_route r (Some path) d
                          (pre ++ (t, CloseEvent (Some 0)) :: post))
        = [Routes.route_failed r (lit "Failed to parse Python output: " ++ m)]
        /\ Routes.disk_after (processor_route r (Some path) d
                                (pre ++ (t, CloseEvent (Some 0)) :: post)) = d)
  /\ (forall m,
        Routes.answers (processor_route r (Some path) d
                          (pre ++ (t, ErrorEvent m) :: post))
        = [Routes.route_failed r (lit "Python spawn error: " ++ m)]
        /\ Routes.disk_after (processor_route r (Some path) d
                                (pre ++ (t, ErrorEvent m) :: post)) = d).
Proof.
  split; [|split; [|split]].
  - intros sched Hnone. unfold Routes.processor_route.
    rewrite (call_times_out _ _ _ _ Hnone). split; reflexivity.
  - intros code Hcode. unfold Routes.processor_route.
    destruct (call_outcome_of_end JSON_parse dir (JStr (Routes.command r))
                (JStr path) (Routes.extra_args r) pre post t (CloseEvent code)
                Hpre Ht eq_refl) as [-> _].
    rewrite Hcode. split; reflexivity.
  - intros m Hm. unfold Routes.processor_route.
    destruct (call_outcome_of_end JSON_parse dir (JStr (Routes.command r))
                (JStr path) (Routes.extra_args r) pre post t (CloseEvent (Some 0))
                Hpre Ht eq_refl) as [-> _].
    simpl. rewrite Hm. split; reflexivity.
  - intros m. unfold Routes.processor_route.
    destruct (call_outcome_of_end JSON_parse dir (JStr (Routes.command r))
                (JStr path) (Routes.extra_args r) pre post t (ErrorEvent m)
                Hpre Ht eq_refl) as [-> _].
    split; reflexivity.
Qed.

(** X12. When the worker exits 0 with parsable output the uploaded file
    is removed before anything else is looked at, so it is gone whatever is
    then answered: the result's own [error] with status 500 when it has a
    truthy one, the route's 500 when the result is [null], and otherwise
    what the route builds from the result. *)
Theorem resolved_call_removes_upload (r : Routes.route) (path : list N)
    (d : disk) (pre post : schedule) (t : Z) (result : jsval)
    (Hpre : data_before 60000 pre = true) (Ht : t < 60000)
    (Hparse : JSON_parse (stdout_of pre) = inr result) :
  Routes.disk_after (processor_route r (Some path) d
                       (pre ++ (t, CloseEvent (Some 0)) :: post))
  = delete path d
  /\ Routes.disk_after (processor_route r (Some path) d
                          (pre ++ (t, CloseEvent (Some 0)) :: post)) !! path = None
  /\ (truthy (prop "error" result) = true ->
      Routes.answers (processor_route r (Some path) d
                        (pre ++ (t, CloseEvent (Some 0)) :: post))
      = [Routes.result_error_response result])
  /\ (get "error" result = None ->
      Routes.answers (processor_route r (Some path) d
                        (pre ++ (t, CloseEvent (Some 0)) :: post))
      = [Routes.route_failed r
           (lit "Cannot read properties of null (reading 'error')")])
  /\ (forall e, get "error" result = Some e -> truthy e = false ->
      Routes.answers (processor_route r (Some path) d
                        (pre ++ (t, CloseEvent (Some 0)) :: post))
      = [match Routes.payload r result with
         | inl m => Routes.route_failed r m
         | inr p => json p
         end]).
Proof.
  unfold Routes.processor_route.
  destruct (call_outcome_of_end JSON_parse dir (JStr (Routes.command r))
              (JStr path) (Routes.extra_args r) pre post t (CloseEvent (Some 0))
              Hpre Ht eq_refl) as [-> _].
  simpl. rewrite Hparse. simpl.
  split; [reflexivity|]. split; [apply lookup_delete_eq|].
  split; [|split].
  - unfold prop. destruct (get "error" result) as [e|]; [|discriminate].
    simpl. now intros ->.
  - now intros ->.
  - now intros e -> ->.
Qed.

(** The success payload of /api/ai-mastering has no [masteringSettings],
    before and after it has crossed the wire. *)
Lemma mastering_payload_keys (result p : jsval) :
  Routes.mastering_payload result = inr p ->
  prop "masteringSettings" (wire p) = JUndefined.
Proof.
  unfold Routes.mastering_payload.
  destruct (get "limiter_threshold" (prop "mastering_settings" result));
    [|discriminate].
  now intros H; injection H as <-.
Qed.

End RouteFacts.

(** ** The CORS middleware *)

Section Cors.

Lemma strip_prefix_app (prefix rest : jsstring) :
  Routes.strip_prefix prefix (prefix ++ rest) = Some rest.
Proof.
  induction prefix as [|p prefix IH]; simpl; [reflexivity|].
  now rewrite N.eqb_refl.
Qed.

Lemma strip_prefix_some (prefix s rest : jsstring) :
  Routes.strip_prefix prefix s = Some rest -> s = prefix ++ rest.
Proof.
  revert s. induction prefix as [|p prefix IH]; intros s; simpl.
  - now intros H; injection H as ->.
  - destruct s as [|c s]; [discriminate|].
    destruct (N.eqb_spec p c) as [->|]; [|discriminate].
    intros H. now rewrite (IH _ H).
Qed.

Lemma localhost_origin_spec (origin : jsstring) :
  Routes.localhost_origin origin = true
  <-> exists port, origin = lit "http://localhost:" ++ port
                   /\ port <> [] /\ forallb Routes.is_digit port = true.
Proof.
  unfold Routes.localhost_origin. split.
  - destruct (Routes.strip_prefix _ origin) as [port|] eqn:Hs; [|discriminate].
    apply strip_prefix_some in Hs. destruct port as [|c port]; [discriminate|].
    intros Hd. exists (c :: port). repeat split; [exact Hs|discriminate|exact Hd].
  - intros (port & -> & Hne & Hd). rewrite strip_prefix_app.
    destruct port; [contradiction|exact Hd].
Qed.

(** X13. The CORS middleware answers with the request's own [Origin] in
    Access-Control-Allow-Origin exactly when that origin is
    [http://localhost:] followed by one or more digits and nothing else;
    for every other origin, and for none, the header is FRONTEND_URL. An
    OPTIONS request is answered 200 by the middleware itself and goes no
    further; every other method is passed on. *)
Theorem cors_reflects_only_localhost (env origin : option jsstring)
    (method : jsstring) :
  (forall port,
     port <> [] -> forallb Routes.is_digit port = true ->
     origin = Some (lit "http://localhost:" ++ port) ->
     Routes.allow_origin (Routes.cors env origin method)
     = Some (lit "http://localhost:" ++ port))
  /\ ((forall port,
        origin = Some (lit "http://localhost:" ++ port) ->
        port = [] \/ forallb Routes.is_digit port = false) ->
      Routes.allow_origin (Routes.cors env origin method)
      = Some (Routes.FRONTEND_URL env))
  /\ (method = lit "OPTIONS" ->
      Routes.sendStatus (Routes.cors env origin method) = Some 200
      /\ Routes.next (Routes.cors env origin method) = false)
  /\ (method <> lit "OPTIONS" ->
      Routes.sendStatus (Routes.cors env origin method) = None
      /\ Routes.next (Routes.cors env origin method) = true).
Proof.
  assert (Hallow : Routes.allow_origin (Routes.cors env origin method)
                   = Some (match origin with
                           | Some o => if truthy (JStr o) && Routes.localhost_origin o
                                       then o else Routes.FRONTEND_URL env
                           | None => Routes.FRONTEND_URL env
                           end)).
  { unfold Routes.cors. now destruct (bool_decide (method = lit "OPTIONS")). }
  split; [|split; [|split]].
  - intros port Hne Hd ->. rewrite Hallow.
    replace (Routes.localhost_origin (lit "http://localhost:" ++ port)) with true
      by (symmetry; apply localhost_origin_spec; now exists port).
    reflexivity.
  - intros Hnot. rewrite Hallow. destruct origin as [o|]; [|reflexivity].
    destruct (Routes.localhost_origin o) eqn:Hl; [|now rewrite andb_false_r].
    apply localhost_origin_spec in Hl as (port & -> & Hne & Hd).
    destruct (Hnot port eq_refl) as [->|Hd']; [contradiction|congruence].
  - intros ->. unfold Routes.cors.
    now rewrite bool_decide_eq_true_2 by reflexivity.
  - intros Hm. unfold Routes.cors.
    now rewrite bool_decide_eq_false_2 by exact Hm.
Qed.

End Cors.

(** ** The lyrics handler *)

Section LyricsFacts.

Variable JSON_parse : jsstring -> jsstring + jsval.

Local Abbreviation handleGenerateLyrics := (Studio.handleGenerateLyrics JSON_parse).
Local Abbreviation lyrics_try := (Studio.lyrics_try JSON_parse).

Lemma lyrics_started (snap : Client.AppState) (lyricsPrompt : jsstring)
    (net : option Client.net_event) :
  blank lyricsPrompt = false -> 1 <= Client.credits snap ->
  handleGenerateLyrics snap lyricsPrompt net
  = [Studio.Base (Client.Update (Client.SetCredits (-1)));
     Studio.SetIsGenerating true; Studio.SetLyricsResult (JStr []);
     Studio.Base (Client.Fetch Studio.lyrics_url
                    (JObj [("prompt"%string, JStr lyricsPrompt)]))]
    ++ match net with
       | None => []
       | Some e =>
           match lyrics_try e with
           | inr done => done
           | inl err =>
               [Studio.Base (Client.ConsoleError (Client.message err));
                Studio.SetLyricsResult (JStr Studio.generation_error_text);
                Studio.Base (Client.Update (Client.SetCredits 1))]
           end
           ++ [Studio.SetIsGenerating false]
       end.
Proof.
  intros Hb Hc. unfold Studio.handleGenerateLyrics.
  rewrite truthy_trim, Hb. simpl. unfold Client.useCredit.
  replace (1 <=? Client.credits snap) with true by (symmetry; apply Z.leb_le; lia).
  reflexivity.
Qed.

Lemma lyrics_try_done (e : Client.net_event) (done : list Studio.step) :
  lyrics_try e = inr done ->
  exists l, done = [Studio.SetLyricsResult l] /\ truthy l = true.
Proof.
  unfold Studio.lyrics_try. destruct e as [status text|m]; [|discriminate].
  destruct (negb (ok status)); [discriminate|].
  destruct (JSON_parse text) as [m|data]; [discriminate|].
  destruct (get "lyrics" data) as [l|]; [|discriminate].
  intros H. injection H as <-. eexists. split; [reflexivity|].
  unfold or. destruct (truthy l) eqn:Hl; [exact Hl|reflexivity].
Qed.

(** X14. [handleGenerateLyrics] on a non-blank prompt and a balance of at
    least 1 debits one credit once. If the request fails in any way the
    credit is refunded exactly once and the lyrics box shows the error
    text; if it succeeds the debit stands and the lyrics box is never left
    empty. The request has no timeout: if it never settles there is no
    refund and the handler is left generating. *)
Theorem lyrics_refund_exactly_once (snap : Client.AppState)
    (lyricsPrompt : jsstring) (net : option Client.net_event)
    (Hprompt : blank lyricsPrompt = false) (Hcredits : 1 <= Client.credits snap) :
  Studio.debits (handleGenerateLyrics snap lyricsPrompt net) = 1%nat
  /\ (net = None ->
      Studio.refunds (handleGenerateLyrics snap lyricsPrompt net) = 0%nat
      /\ (forall b, Studio.isGenerating_after
                      (handleGenerateLyrics snap lyricsPrompt net) b = true)
      /\ forall c, Studio.credits_after
                     (handleGenerateLyrics snap lyricsPrompt net) c = c - 1)
  /\ (forall e err,
        net = Some e -> lyrics_try e = inl err ->
        Studio.refunds (handleGenerateLyrics snap lyricsPrompt net) = 1%nat
        /\ (forall b, Studio.isGenerating_after
                        (handleGenerateLyrics snap lyricsPrompt net) b = false)
        /\ (forall c, Studio.credits_after
                        (handleGenerateLyrics snap lyricsPrompt net) c = c)
        /\ forall v, Studio.lyricsResult_after
                       (handleGenerateLyrics snap lyricsPrompt net) v
                     = JStr Studio.generation_error_text)
  /\ (forall e done,
        net = Some e -> lyrics_try e = inr done ->
        Studio.refunds (handleGenerateLyrics snap lyricsPrompt net) = 0%nat
        /\ (forall b, Studio.isGenerating_after
                        (handleGenerateLyrics snap lyricsPrompt net) b = false)
        /\ (forall c, Studio.credits_after
                        (handleGenerateLyrics snap lyricsPrompt net) c = c - 1)
        /\ forall v, truthy (Studio.lyricsResult_after
                               (handleGenerateLyrics snap lyricsPrompt net) v)
                     = true).
Proof.
  rewrite (lyrics_started snap lyricsPrompt net Hprompt Hcredits).
  split; [|split; [|split]].
  - destruct net as [e|]; [|reflexivity].
    destruct (lyrics_try e) as [err|done] eqn:Htry; [reflexivity|].
    now destruct (lyrics_try_done e done Htry) as (l & -> & _).
  - intros ->. repeat split; intros c; simpl; lia.
  - intros e err -> ->. repeat split; intros c; simpl; lia.
  - intros e done -> Htry. rewrite Htry.
    destruct (lyrics_try_done e done Htry) as (l & -> & Hl).
    repeat split; try (intros c; simpl; lia). intros v. exact Hl.
Qed.

(** The other two guards. *)
Lemma lyrics_guarded (snap : Client.AppState) (lyricsPrompt : jsstring)
    (net : option Client.net_event) :
  blank lyricsPrompt = true \/ Client.credits snap < 1 ->
  List.filter Studio.is_request (handleGenerateLyrics snap lyricsPrompt net) = []
  /\ forall c, Studio.credits_after (handleGenerateLyrics snap lyricsPrompt net) c = c.
Proof.
  unfold Studio.handleGenerateLyrics. rewrite truthy_trim.
  destruct (blank lyricsPrompt) eqn:Hb; simpl; [now intros _|].
  intros [H|H]; [discriminate|]. unfold Client.useCredit.
  replace (1 <=? Client.credits snap) with false by (symmetry; apply Z.leb_gt; lia).
  now split.
Qed.

End LyricsFacts.

(** ** The browser and the server together *)

Section EndToEnd.

(** The server's platform and the browser's. *)
Variable server_parse : jsstring -> jsstring + jsval.
Variable toBase64 : list N -> jsstring.
Variable dir : jsstring.
Variable unlink_fails : list N -> bool.
Variable JSON_parse : jsstring -> jsstring + jsval.
Variable atob : jsstring -> option jsstring.
Variable createObjectURL : jsstring -> jsstring.

Local Abbreviation compose_song :=
  (compose_song server_parse toBase64 dir unlink_fails).
Local Abbreviation handler :=
  (Client.handleCreateSongFromLyrics JSON_parse atob createObjectURL).
Local Abbreviation completed := (Client.completed JSON_parse atob createObjectURL).

(** The fields the route destructures out of the body the compose handler
    sends. *)
Lemma compose_body_accepted (snap : Client.AppState) :
  blank (Client.lyricsToUse snap) = false ->
  accepted (Client.compose_body snap (Client.lyricsToUse snap))
    {| lyrics := JStr (Client.lyricsToUse snap);
       genre := JStr (Client.songGenre snap);
       tempo := default (JNum 120)
                  (Client.stringify_number (Client.parseInt (Client.songTempo snap)));
       key := JStr (Client.songKey snap) |}.
Proof.
  intros Hb. split; [reflexivity|]. unfold lyrics_missing. cbn [lyrics].
  rewrite truthy_trim, Hb.
  destruct (Client.lyricsToUse snap); [discriminate|reflexivity].
Qed.

(** What the handler's trace does to the balance, by how the [try] block
    ended. *)
Lemma handler_balance (snap : Client.AppState) (now : Z)
    (net : list (Z * Client.net_event)) :
  blank (Client.lyricsToUse snap) = false -> 2 <= Client.credits snap ->
  Client.count Client.is_refund (handler snap now net)
  = (if completed snap now net then 0 else 1)%nat
  /\ forall st, Client.credits (Client.commit (handler snap now net) st)
                = if completed snap now net then Client.credits st - 2
                  else Client.credits st.
Proof.
  intros Hl Hc. rewrite (handler_started _ _ _ _ _ _ Hl Hc).
  unfold Client.completed.
  destruct (Client.try_block JSON_parse atob createObjectURL snap now net)
    as [err|done] eqn:Htry.
  - destruct (catch_block_refunds err) as (Hr & _ & _ & Hcr).
    rewrite !count_app, Hr. split; [reflexivity|]. intros st.
    rewrite !commit_app. cbn [Client.commit Client.apply_update Client.credits].
    rewrite Hcr. cbn [Client.commit Client.apply_update Client.credits]. lia.
  - destruct (try_block_done _ _ _ _ _ _ _ Htry) as (Hr & _ & _ & Hcr).
    rewrite !count_app, Hr. split; [reflexivity|]. intros st.
    rewrite !commit_app. cbn [Client.commit Client.apply_update Client.credits].
    rewrite Hcr. cbn [Client.commit Client.apply_update Client.credits]. lia.
Qed.


Lemma wire_success_audio (rq : request) (result : jsval) (b : jsstring)
    (structure : jsval) :
  get "audio" (wire (body (success_response rq result b structure)))
  = Some (JStr b).
Proof. reflexivity. Qed.

(** X16. End to end, the debit stands exactly when the server answers
    200. Whatever the worker does, if the route's one response reaches the
    browser before the 130 s abort, the handler keeps the 2 credits when
    the status is 200 and refunds them, once, on every other status. *)
Theorem debit_stands_iff_server_answers_200 (snap : Client.AppState) (now : Z)
    (d : disk) (sched : schedule) (r : response) (t : Z) (text : jsstring)
    (later : list (Z * Client.net_event))
    (Hlyrics : blank (Client.lyricsToUse snap) = false)
    (Hcredits : 2 <= Client.credits snap)
    (Hcodec : forall bytes, atob (toBase64 bytes) <> None)
    (Hsent : sent (compose_song (Client.compose_body snap (Client.lyricsToUse snap))
                     d sched) = [r])
    (Ht : t < 130000)
    (Hwire : JSON_parse text = inr (wire (body r))) :
  Client.count Client.is_refund
    (handler snap now ((t, Client.Responded (status r) text) :: later))
  = (if status r =? 200 then 0%nat else 1%nat)
  /\ forall st,
       Client.credits
         (Client.commit
            (handler snap now ((t, Client.Responded (status r) text) :: later)) st)
       = if status r =? 200 then Client.credits st - 2 else Client.credits st.
Proof.
  pose proof (compose_body_accepted snap Hlyrics) as Hacc.
  destruct (sent_one_answered server_parse toBase64 dir unlink_fails _ _ d sched
              _ Hacc Hsent) as (_ & _ & Hans).
  assert (Hdone : completed snap now ((t, Client.Responded (status r) text) :: later)
                  = (status r =? 200)).
  { unfold Client.completed, Client.try_block, Client.await_fetch.
    change Client.abort_after_ms with 130000.
    replace (130000 <=? t) with false by (symmetry; apply Z.leb_gt; lia).
    destruct Hans as [[H500 _]|(result & path & bytes & structure & -> & _)].
    - rewrite H500. reflexivity.
    - change (status (success_response _ result (toBase64 bytes) structure))
        with 200.
      simpl negb. cbv iota. rewrite Hwire, wire_success_audio.
      change (String (JStr (toBase64 bytes))) with (toBase64 bytes).
      destruct (atob (toBase64 bytes)) eqn:Ha; [reflexivity|].
      now apply Hcodec in Ha. }
  destruct (handler_balance snap now
              ((t, Client.Responded (status r) text) :: later) Hlyrics Hcredits)
    as [Hr Hc].
  rewrite Hdone in Hr, Hc. split; assumption.
Qed.

End EndToEnd.

Section StudioEndToEnd.

Variable server_parse : jsstring -> jsstring + jsval.
Variable dir : jsstring.
Variable JSON_parse : jsstring -> jsstring + jsval.
Variable atob : jsstring -> option jsstring.
Variable createObjectURL : jsstring -> jsstring.

Local Abbreviation ai_mastering := (Routes.ai_mastering server_parse dir).
Local Abbreviation handleAIMastering := (Studio.handleAIMastering JSON_parse).
Local Abbreviation generate_lyrics := (Routes.generate_lyrics server_parse).
Local Abbreviation handleGenerateLyrics := (Studio.handleGenerateLyrics JSON_parse).

(** A response of /api/ai-mastering is a failure status, or the success
    payload. *)
Lemma mastering_answer_cases (file : option (list N)) (d : disk)
    (sched : schedule) (r : response) :
  In r (Routes.answers (ai_mastering file d sched)) ->
  ok (status r) = false
  \/ (status r = 200
      /\ exists result p, Routes.mastering_payload result = inr p /\ body r = p).
Proof.
  unfold Routes.ai_mastering, Routes.processor_route.
  destruct file as [path|]; [|intros [<-|[]]; now left].
  destruct (settled _) as [|[result|m] rest].
  - intros [].
  - intros [<-|[]].
    destruct (get "error" result) as [e|]; [|now left].
    destruct (truthy e); [now left|]. simpl.
    destruct (Routes.mastering_payload result) as [m|p] eqn:Hp; [now left|].
    right. split; [reflexivity|]. now exists result, p.
  - intros [<-|[]]. now left.
Qed.

(** X17. Against this server [handleAIMastering] never reaches its
    success alert. The route's success payload spells the settings
    [mastering_settings] while the handler reads [masteringSettings], so
    even a 200 ends in the handler's [catch]: for every response of
    /api/ai-mastering the one alert shown is "AI mastering failed", the
    stored mastering settings are [undefined] at best, the processing flag
    is reset and the credits are not touched. *)
Theorem mastering_never_succeeds (file : option (list N)) (d : disk)
    (sched : schedule) (r : response) (audioFile : jsval) (now : Z)
    (bytes text : jsstring)
    (Hfile : truthy audioFile = true)
    (Hanswer : In r (Routes.answers (ai_mastering file d sched)))
    (Hwire : JSON_parse text = inr (wire (body r))) :
  Studio.alerts
    (handleAIMastering audioFile true now (inr bytes)
       (Some (Client.Responded (status r) text)))
  = [lit "AI mastering failed"]
  /\ (forall b, Studio.processing_after
                  (handleAIMastering audioFile true now (inr bytes)
                     (Some (Client.Responded (status r) text))) b = false)
  /\ (forall c, Studio.credits_after
                  (handleAIMastering audioFile true now (inr bytes)
                     (Some (Client.Responded (status r) text))) c = c)
  /\ forall ms,
       In (Studio.SetMasteringSettings ms)
         (handleAIMastering audioFile true now (inr bytes)
            (Some (Client.Responded (status r) text))) ->
       ms = JUndefined.
Proof.
  unfold Studio.handleAIMastering. rewrite Hfile. simpl negb. cbv iota.
  destruct (mastering_answer_cases file d sched r Hanswer)
    as [Hbad|(H200 & result & p & Hp & Hbody)].
  - unfold Studio.mastering_try. rewrite Hbad. simpl.
    repeat split. intros ms [H|[H|[H|[H|[H|[H|[]]]]]]]; discriminate.
  - unfold Studio.mastering_try. rewrite H200. simpl negb. cbv iota.
    rewrite Hwire, Hbody.
    assert (Hget : get "masteringSettings" (wire p) = Some JUndefined).
    { pose proof (mastering_payload_keys result p Hp) as Hk.
      unfold Routes.mastering_payload in Hp.
      destruct (get "limiter_threshold" (prop "mastering_settings" result));
        [|discriminate].
      injection Hp as <-. reflexivity. }
    rewrite Hget. simpl.
    repeat split. intros ms [H|[H|[H|[H|[H|[H|[H|[H|[]]]]]]]]]; try discriminate.
    now injection H.
Qed.

(** X18. The credit for a lyrics request is kept whenever the server
    answers 200, and this server answers 200 without real lyrics in three
    cases: with no usable API key it sends the long mock text around the
    first 50 code units of the prompt; when the completion service replies
    with an error status it sends the short mock text; when the service's
    answer has no [choices] it sends [lyrics: null], which the handler
    shows as "(no lyrics returned)". In all three the balance ends one
    lower and nothing is refunded. *)
Theorem mock_lyrics_cost_a_credit (snap : Client.AppState)
    (lyricsPrompt text : jsstring) (key : option jsstring) (up : Routes.upstream)
    (r : response)
    (Hprompt : blank lyricsPrompt = false) (Hcredits : 1 <= Client.credits snap)
    (Hanswer : Routes.lyrics_answers
                 (generate_lyrics key (JObj [("prompt"%string, JStr lyricsPrompt)]) up)
               = [r])
    (Hwire : JSON_parse text = inr (wire (body r))) :
  (Routes.key_unusable key = true ->
   Routes.asked (generate_lyrics key (JObj [("prompt"%string, JStr lyricsPrompt)]) up)
   = None
   /\ forall v c,
        Studio.lyricsResult_after
          (handleGenerateLyrics snap lyricsPrompt
             (Some (Client.Responded (status r) text))) v
        = JStr (Routes.mock_lyrics (take 50 lyricsPrompt))
        /\ Studio.credits_after
             (handleGenerateLyrics snap lyricsPrompt
                (Some (Client.Responded (status r) text))) c = c - 1)
  /\ (forall status reply,
        Routes.key_unusable key = false ->
        up = Routes.UpstreamReplied status reply -> ok status = false ->
        forall v c,
          Studio.lyricsResult_after
            (handleGenerateLyrics snap lyricsPrompt
               (Some (Client.Responded (Server.status r) text))) v
          = JStr (Routes.short_mock_lyrics (take 50 lyricsPrompt))
          /\ Studio.credits_after
               (handleGenerateLyrics snap lyricsPrompt
                  (Some (Client.Responded (Server.status r) text))) c = c - 1)
  /\ (forall status reply data choices,
        Routes.key_unusable key = false ->
        up = Routes.UpstreamReplied status reply -> ok status = true ->
        server_parse reply = inr data ->
        get "choices" data = Some choices -> truthy choices = false ->
        forall v c,
          Studio.lyricsResult_after
            (handleGenerateLyrics snap lyricsPrompt
               (Some (Client.Responded (Server.status r) text))) v
          = JStr (lit "(no lyrics returned)")
          /\ Studio.credits_after
               (handleGenerateLyrics snap lyricsPrompt
                  (Some (Client.Responded (Server.status r) text))) c = c - 1).
Proof.
  assert (Hp : Routes.chosen_prompt (JObj [("prompt"%string, JStr lyricsPrompt)])
               = JStr lyricsPrompt).
  { unfold Routes.chosen_prompt. simpl.
    destruct lyricsPrompt; [discriminate|reflexivity]. }
  rewrite (lyrics_started JSON_parse snap lyricsPrompt _ Hprompt Hcredits).
  unfold Routes.generate_lyrics in Hanswer |- *. rewrite Hp in Hanswer |- *.
  split; [|split].
  - intros Hk. rewrite Hk in Hanswer |- *. split; [reflexivity|].
    simpl in Hanswer. injection Hanswer as <-. intros v c.
    unfold Studio.lyrics_try. simpl. rewrite Hwire. simpl. split; [reflexivity|lia].
  - intros st reply Hk -> Hbad v c. rewrite Hk in Hanswer.
    simpl in Hanswer. rewrite Hbad in Hanswer. simpl in Hanswer.
    injection Hanswer as <-.
    unfold Studio.lyrics_try. simpl. rewrite Hwire. simpl. split; [reflexivity|lia].
  - intros st reply data choices Hk -> Hok Hparse Hget Hfalsy v c.
    rewrite Hk in Hanswer. simpl in Hanswer. rewrite Hok in Hanswer.
    simpl in Hanswer. rewrite Hparse in Hanswer.
    unfold Routes.extract_lyrics in Hanswer. rewrite Hget in Hanswer.
    simpl in Hanswer. rewrite Hfalsy in Hanswer. simpl in Hanswer.
    injection Hanswer as <-.
    unfold Studio.lyrics_try. simpl. rewrite Hwire. simpl. split; [reflexivity|lia].
Qed.

(** X19. A failed lyrics request leaves its error text in the lyrics
    box, and the compose handler takes that text for lyrics: on a render
    that shows it, with "Generate with AI" selected and 2 credits, the
    handler debits the 2 credits and sends the error text to
    /api/compose-song. *)
Theorem failed_generation_feeds_compose (snap compose_snap : Client.AppState)
    (lyricsPrompt : jsstring) (e : Client.net_event) (err : Client.exn)
    (v : jsval) (now : Z) (net : list (Z * Client.net_event))
    (Hprompt : blank lyricsPrompt = false) (Hcredits : 1 <= Client.credits snap)
    (Hfailed : Studio.lyrics_try JSON_parse e = inl err)
    (Hshown : Studio.lyricsResult_after
                (handleGenerateLyrics snap lyricsPrompt (Some e)) v
              = JStr (Client.lyricsResult compose_snap))
    (Hmode : Client.useOriginalLyrics compose_snap = false)
    (Hcredits' : 2 <= Client.credits compose_snap) :
  Client.lyricsToUse compose_snap = Studio.generation_error_text
  /\ In (Client.Fetch Client.compose_url
           (JObj [("lyrics"%string, JStr Studio.generation_error_text);
                  ("genre"%string, JStr (Client.songGenre compose_snap));
                  ("tempo"%string,
                   Client.stringify_number
                     (Client.parseInt (Client.songTempo compose_snap)));
                  ("key"%string, JStr (Client.songKey compose_snap))]))
       (Client.handleCreateSongFromLyrics JSON_parse atob createObjectURL
          compose_snap now net)
  /\ Client.count Client.is_debit
       (Client.handleCreateSongFromLyrics JSON_parse atob createObjectURL
          compose_snap now net) = 1%nat.
Proof.
  rewrite (lyrics_started JSON_parse snap lyricsPrompt _ Hprompt Hcredits) in Hshown.
  rewrite Hfailed in Hshown. simpl in Hshown. injection Hshown as Hshown.
  assert (Hl : Client.lyricsToUse compose_snap = Studio.generation_error_text).
  { unfold Client.lyricsToUse. now rewrite Hmode. }
  assert (Hb : blank (Client.lyricsToUse compose_snap) = false)
    by now rewrite Hl.
  split; [exact Hl|].
  rewrite (handler_started JSON_parse atob createObjectURL compose_snap now net
             Hb Hcredits').
  split.
  - unfold Client.compose_body. rewrite Hl. simpl. auto.
  - rewrite !count_app.
    destruct (Client.try_block JSON_parse atob createObjectURL compose_snap now net)
      as [err'|done] eqn:Htry.
    + now destruct (catch_block_refunds err') as (_ & -> & _).
    + now destruct (try_block_done _ _ _ _ _ _ _ Htry) as (_ & -> & _).
Qed.

(** X20. A mock purchase adds 50 credits, activates the subscription and
    closes the paywall; on the next render neither guard of the paid
    features opens it again: from any balance that was not negative
    [useCredit(2)] succeeds, and [handleAIMastering] with a file goes on to
    its request. *)
Theorem mock_purchase_unlocks (c : Z) (snap : Client.AppState) (audioFile : jsval)
    (now : Z) (blob : jsstring + jsstring) (net : option Client.net_event)
    (Hbalance : 0 <= c)
    (Hrender : Client.credits snap = Studio.credits_after Studio.handleMockPurchase c)
    (Hfile : truthy audioFile = true) :
  Studio.credits_after Studio.handleMockPurchase c = c + 50
  /\ (forall b, Studio.isPaywallOpen_after Studio.handleMockPurchase b = false)
  /\ fst (Client.useCredit snap 2) = true
  /\ forall b,
       Studio.isPaywallOpen_after
         (handleAIMastering audioFile
            (Studio.subscriptionActive_after Studio.handleMockPurchase b)
            now blob net) false = false
       /\ In (Studio.FetchBlob audioFile)
            (handleAIMastering audioFile
               (Studio.subscriptionActive_after Studio.handleMockPurchase b)
               now blob net).
Proof.
  split; [reflexivity|]. split; [reflexivity|]. split.
  - unfold Client.useCredit. rewrite Hrender. simpl.
    now replace (2 <=? c + 50) with true by (symmetry; apply Z.leb_le; lia).
  - intros b. simpl Studio.subscriptionActive_after.
    unfold Studio.handleAIMastering. rewrite Hfile. simpl negb. cbv iota.
    split; [|simpl; auto].
    destruct blob as [m|bytes]; [reflexivity|].
    destruct net as [e|]; [|reflexivity].
    destruct (Studio.mastering_try JSON_parse now e) as [called thrown] eqn:Htry.
    unfold Studio.mastering_try in Htry.
    repeat match type of Htry with
           | context [match ?x with _ => _ end] => destruct x
           end; injection Htry as <- <-; reflexivity.
Qed.

End StudioEndToEnd.

(** ** Numbers in and out of text *)

Section Numerals.

Lemma horner_acc (u : Decimal.uint) (p : positive) :
  Z.pos (Pos.of_uint_acc u p) = Numeral.horner u (Z.pos p).
Proof.
  revert p. induction u; intros p; simpl; try reflexivity;
    rewrite IHu; f_equal; lia.
Qed.

Lemma horner_of_uint (u : Decimal.uint) : Z.of_uint u = Numeral.horner u 0.
Proof.
  unfold Z.of_uint. induction u; simpl; try reflexivity;
    try (rewrite horner_acc; reflexivity). exact IHu.
Qed.

Lemma digits_numeral (u : Decimal.uint) (a : Z) :
  Client.digits 10 (lit (NilEmpty.string_of_uint u)) (Some a)
  = Some (Numeral.horner u a).
Proof.
  revert a. induction u; intros a; simpl; try reflexivity; apply IHu.
Qed.

Lemma digits_numeral_start (u : Decimal.uint) :
  u <> Decimal.Nil ->
  Client.digits 10 (lit (NilEmpty.string_of_uint u)) None
  = Some (Numeral.horner u 0).
Proof.
  destruct u; intros Hne; try contradiction; simpl; apply digits_numeral.
Qed.

Lemma digits_numeral_unfolded (u : Decimal.uint) (a : Z) :
  Client.digits 10
    (map N_of_ascii (list_ascii_of_string (NilEmpty.string_of_uint u))) (Some a)
  = Some (Numeral.horner u a).
Proof. apply digits_numeral. Qed.

(** The text of an unsigned numeral starts with a digit and has no [x]
    after a leading zero, so [parseInt] reads all of it in base 10. *)
Lemma parseInt_uint (u : Decimal.uint) :
  Client.parseInt (lit (NilZero.string_of_uint u)) = JNum (Z.of_uint u)
  /\ Client.parseInt (45%N :: lit (NilZero.string_of_uint u))
     = JNum (- Z.of_uint u).
Proof.
  rewrite horner_of_uint. unfold NilZero.string_of_uint.
  destruct u as [|u|u|u|u|u|u|u|u|u|u]; [split; reflexivity|..];
    (split; destruct u; unfold Client.parseInt; simpl;
     rewrite ?digits_numeral_unfolded; reflexivity).
Qed.

Lemma parseInt_of_Z (z : Z) : Client.parseInt (of_Z z) = JNum z.
Proof.
  unfold of_Z. rewrite <- (DecimalZ.of_to z) at 2.
  destruct (Z.to_int z) as [u|u]; simpl NilZero.string_of_int.
  - apply parseInt_uint.
  - change (lit (String.String "-" (NilZero.string_of_uint u)))
      with (45%N :: lit (NilZero.string_of_uint u)).
    apply parseInt_uint.
Qed.

End Numerals.

Section Messages.

Variable server_parse : jsstring -> jsstring + jsval.
Variable toBase64 : list N -> jsstring.
Variable dir : jsstring.
Variable unlink_fails : list N -> bool.
Variable JSON_parse : jsstring -> jsstring + jsval.
Variable atob : jsstring -> option jsstring.
Variable createObjectURL : jsstring -> jsstring.

Local Abbreviation compose_song :=
  (compose_song server_parse toBase64 dir unlink_fails).
Local Abbreviation handler :=
  (Client.handleCreateSongFromLyrics JSON_parse atob createObjectURL).

(** X21. A tempo typed as a decimal integer survives the whole way:
    for every integer that a JavaScript number holds exactly (up to
    2^53 - 1 either side of zero), [parseInt] reads the number back from
    its decimal text, and the worker is handed exactly the digits that were
    in the form. *)
Theorem typed_tempo_reaches_worker (snap : Client.AppState) (d : disk)
    (sched : schedule) (z : Z)
    (Hlyrics : blank (Client.lyricsToUse snap) = false)
    (Hsafe : Z.abs z <= 9007199254740991)
    (Htempo : Client.songTempo snap = String (JNum z)) :
  Client.parseInt (Client.songTempo snap) = JNum z
  /\ worker_tempo
       (compose_song (Client.compose_body snap (Client.lyricsToUse snap)) d sched)
     = Some (JStr (Client.songTempo snap)).
Proof.
  assert (Hparse : Client.parseInt (Client.songTempo snap) = JNum z)
    by (rewrite Htempo; apply parseInt_of_Z).
  split; [exact Hparse|].
  pose proof (spawned_accepted server_parse toBase64 dir unlink_fails _ _ d sched
                (compose_body_accepted snap Hlyrics)) as Hsp.
  unfold worker_tempo. rewrite Hsp. simpl. rewrite Hparse, Htempo. reflexivity.
Qed.

(** The alert of the compose handler for a response that is not ok and
    whose body carries a non-empty [error] string. *)
Lemma error_shown (snap : Client.AppState) (now : Z) (t status : Z)
    (text : jsstring) (later : list (Z * Client.net_event)) (errBody : jsval)
    (c : N) (s : jsstring) :
  blank (Client.lyricsToUse snap) = false -> 2 <= Client.credits snap ->
  t < 130000 -> Client.ok status = false ->
  JSON_parse text = inr errBody -> get "error" errBody = Some (JStr (c :: s)) ->
  In (Client.Alert (lit "Song generation failed: " ++ c :: s))
    (handler snap now ((t, Client.Responded status text) :: later)).
Proof.
  intros Hl Hc Ht Hok Hparse Hget.
  rewrite (handler_started _ _ _ _ _ _ Hl Hc).
  unfold Client.try_block, Client.await_fetch.
  change Client.abort_after_ms with 130000.
  replace (130000 <=? t) with false by (symmetry; apply Z.leb_gt; lia).
  rewrite Hok. simpl negb. cbv iota.
  unfold Client.http_error_message. rewrite Hparse, Hget.
  unfold Client.catch_block. simpl. auto 10.
Qed.

(** X22. What the user is told when the job fails on the server. If the
    worker outlives the 120 s ceiling and the route's answer reaches the
    browser before its own 130 s abort, the alert reads "Song generation
    failed: Song generation timeout"; if the worker exits with a non-zero
    code it reads "Song generation failed: Song synthesis failed". *)
Theorem server_failure_shown (snap : Client.AppState) (now : Z) (d : disk)
    (sched : schedule) (r : response) (t : Z) (text : jsstring)
    (later : list (Z * Client.net_event))
    (Hlyrics : blank (Client.lyricsToUse snap) = false)
    (Hcredits : 2 <= Client.credits snap)
    (Hsent : sent (compose_song (Client.compose_body snap (Client.lyricsToUse snap))
                     d sched) = [r])
    (Ht : t < 130000)
    (Hwire : JSON_parse text = inr (wire (body r))) :
  (ends_within 120000 sched = false ->
   In (Client.Alert (lit "Song generation failed: Song generation timeout"))
     (handler snap now ((t, Client.Responded (status r) text) :: later)))
  /\ (forall pre post t' code,
        sched = pre ++ (t', CloseEvent code) :: post ->
        data_before 120000 pre = true -> t' < 120000 ->
        code_nonzero code = true ->
        In (Client.Alert (lit "Song generation failed: Song synthesis failed"))
          (handler snap now ((t, Client.Responded (status r) text) :: later))).
Proof.
  pose proof (compose_body_accepted snap Hlyrics) as Hacc.
  destruct (sent_one_answered server_parse toBase64 dir unlink_fails _ _ d sched
              _ Hacc Hsent) as (Hspawn & _).
  rewrite (compose_song_accepted _ _ _ _ _ _ _ _ Hacc Hspawn) in Hsent.
  match type of Hacc with accepted _ ?q => set (rq := q) in * end.
  split.
  - intros Hnone. change 120000 with compose_timeout_ms in Hnone.
    assert (Hp : pending dir rq d (running dir rq d)) by (now exists [], []).
    destruct (run_times_out _ _ _ _ (pending dir rq d) (pending_armed dir rq d)
                (pending_data server_parse toBase64 dir unlink_fails rq d)
                (timed_out d) (timed_out_disarmed d)
                (timed_out_handle server_parse toBase64 unlink_fails rq d)
                (fire_pending dir rq d) sched _ Hp Hnone) as (_ & _ & _ & _ & Hs & _).
    rewrite Hs in Hsent. injection Hsent as <-.
    now apply (error_shown snap now t _ text later (wire (body timeout_response))).
  - intros pre post t' code -> Hpre Ht' Hcode.
    destruct (run_until_close server_parse toBase64 dir unlink_fails rq d pre
                post t' code Hpre Ht') as (_ & _ & _ & _ & _ & Hs & _).
    rewrite Hs in Hsent. unfold Server.close_try in Hsent.
    rewrite Hcode in Hsent. simpl in Hsent. injection Hsent as <-.
    now apply (error_shown snap now t _ text later
                 (wire (body (synthesis_failed_response (stderr_of pre))))).
Qed.

End Messages.

(** * The further properties on concrete runs *)

Lemma call_outcome_by_exit_witness :
  settled (Fixtures.callPythonProcessor (JStr (lit "master"))
             (JStr Fixtures.upload) []
             (Fixtures.prints (lit "MASTER") ++ [(30, CloseEvent (Some 2))]))
  = [Rejected (lit "Python process failed (code 2): warn")]
  /\ settled (Fixtures.callPythonProcessor (JStr (lit "master"))
                (JStr Fixtures.upload) [] Fixtures.mastering_run)
     = [Resolved Fixtures.master_result].
Proof.
  split.
  - exact (proj1 (call_outcome_by_exit Fixtures.JSON_parse Sample.dir
                    (JStr (lit "master")) (JStr Fixtures.upload) []
                    (Fixtures.prints (lit "MASTER")) [] 30 eq_refl eq_refl)
             (Some 2) eq_refl).
  - exact (proj1 (proj2 (call_outcome_by_exit Fixtures.JSON_parse Sample.dir
                           (JStr (lit "master")) (JStr Fixtures.upload) []
                           (Fixtures.prints (lit "MASTER")) [] 30 eq_refl eq_refl))
             Fixtures.master_result eq_refl).
Defined.

Lemma worker_killed_iff_timed_out_witness :
  killed (Sample.compose_song Sample.body_ok Sample.disk_with_song
            Sample.slow_worker) = true
  <-> sent (Sample.compose_song Sample.body_ok Sample.disk_with_song
              Sample.slow_worker) = [timeout_response].
Proof.
  exact (worker_killed_iff_timed_out Sample.JSON_parse Sample.toBase64
           Sample.dir Sample.unlink_fails Sample.body_ok Sample.rq_ok
           Sample.disk_with_song Sample.slow_worker sample_accepted).
Defined.


Lemma spawn_failure_answered_witness :
  sent (Sample.compose_song Sample.body_ok Sample.disk_with_song
          (Sample.pipes ++ [(30, ErrorEvent (lit "spawn python3 ENOENT"))]))
  = [spawn_error_response (lit "spawn python3 ENOENT")]
  /\ killed (Sample.compose_song Sample.body_ok Sample.disk_with_song
               (Sample.pipes ++ [(30, ErrorEvent (lit "spawn python3 ENOENT"))]))
     = false
  /\ files (Sample.compose_song Sample.body_ok Sample.disk_with_song
              (Sample.pipes ++ [(30, ErrorEvent (lit "spawn python3 ENOENT"))]))
     = Sample.disk_with_song.
Proof.
  exact (spawn_failure_answered Sample.JSON_parse Sample.toBase64 Sample.dir
           Sample.unlink_fails Sample.body_ok Sample.rq_ok
           Sample.disk_with_song Sample.pipes [] 30
           (lit "spawn python3 ENOENT") sample_accepted eq_refl eq_refl).
Defined.

Lemma reported_failure_answered_witness :
  sent (Fixtures.compose_song Sample.body_ok Sample.disk_with_song
          (Fixtures.prints (lit "FAILED") ++ [(30, CloseEvent (Some 0))]))
  = [status_json 500
       (JObj [("error"%string, JStr (lit "no voice"));
              ("stderr"%string, JStr (lit "warn"))])]
  /\ files (Fixtures.compose_song Sample.body_ok Sample.disk_with_song
              (Fixtures.prints (lit "FAILED") ++ [(30, CloseEvent (Some 0))]))
     = Sample.disk_with_song.
Proof.
  refine (reported_failure_answered Fixtures.JSON_parse Sample.toBase64
            Sample.dir Sample.unlink_fails Sample.body_ok Sample.rq_ok
            Sample.disk_with_song
            (Fixtures.prints (lit "FAILED")) [] 30 Fixtures.failed_result
            sample_accepted eq_refl eq_refl eq_refl _ _ eq_refl); discriminate.
Defined.

Lemma unservable_success_answered_witness :
  (sent (Fixtures.compose_song Sample.body_ok ∅
           (Fixtures.prints (lit "BARE") ++ [(30, CloseEvent (Some 0))]))
   = [parse_failed_response (lit "BARE")]
   /\ files (Fixtures.compose_song Sample.body_ok ∅
               (Fixtures.prints (lit "BARE") ++ [(30, CloseEvent (Some 0))])) = ∅)
  /\ (sent (Fixtures.compose_song Sample.body_ok Sample.disk_with_song
              (Fixtures.prints (lit "BARE") ++ [(30, CloseEvent (Some 0))]))
      = [parse_failed_response (lit "BARE")]
      /\ files (Fixtures.compose_song Sample.body_ok Sample.disk_with_song
                  (Fixtures.prints (lit "BARE") ++ [(30, CloseEvent (Some 0))]))
         = delete Sample.song_path Sample.disk_with_song)
  /\ files (Fixtures.compose_song_sealed Sample.body_ok Sample.disk_with_song
              (Fixtures.prints (lit "BARE") ++ [(30, CloseEvent (Some 0))]))
     = Sample.disk_with_song.
Proof.
  split; [|split].
  - refine (proj1 (unservable_success_answered Fixtures.JSON_parse Sample.toBase64
                     Sample.dir Sample.unlink_fails Sample.body_ok Sample.rq_ok ∅
                     (Fixtures.prints (lit "BARE")) [] 30 Fixtures.bare_result
                     Sample.song_path sample_accepted eq_refl eq_refl eq_refl
                     eq_refl eq_refl eq_refl _) _);
      [discriminate|vm_compute; reflexivity].
  - refine (proj2 (unservable_success_answered Fixtures.JSON_parse Sample.toBase64
                     Sample.dir Sample.unlink_fails Sample.body_ok Sample.rq_ok
                     Sample.disk_with_song (Fixtures.prints (lit "BARE")) [] 30
                     Fixtures.bare_result Sample.song_path sample_accepted
                     eq_refl eq_refl eq_refl eq_refl eq_refl eq_refl _)
              Sample.song_bytes _ eq_refl);
      [discriminate|vm_compute; reflexivity].
  - refine (proj2 (proj2 (unservable_success_answered Fixtures.JSON_parse
                     Sample.toBase64 Sample.dir (fun _ => true) Sample.body_ok
                     Sample.rq_ok Sample.disk_with_song
                     (Fixtures.prints (lit "BARE")) [] 30 Fixtures.bare_result
                     Sample.song_path sample_accepted eq_refl eq_refl eq_refl
                     eq_refl eq_refl eq_refl _) Sample.song_bytes _ eq_refl));
      [discriminate|vm_compute; reflexivity].
Defined.

Lemma non_string_lyrics_rejected_witness :
  sent (Sample.compose_song (JObj [("lyrics"%string, JNum 5)])
          Sample.disk_with_song Sample.fast_worker)
  = [composition_failed_response type_error_message]
  /\ spawned (Sample.compose_song (JObj [("lyrics"%string, JNum 5)])
                Sample.disk_with_song Sample.fast_worker) = None
  /\ files (Sample.compose_song (JObj [("lyrics"%string, JNum 5)])
              Sample.disk_with_song Sample.fast_worker) = Sample.disk_with_song.
Proof.
  refine (non_string_lyrics_rejected Sample.JSON_parse Sample.toBase64
            Sample.dir Sample.unlink_fails
            (JObj [("lyrics"%string, JNum 5)]) (JNum 5) Sample.disk_with_song
            Sample.fast_worker eq_refl _).
  intros s. discriminate.
Defined.


Lemma failed_call_keeps_upload_witness :
  Routes.answers (Fixtures.analyze_audio (Some Fixtures.upload)
                    Fixtures.disk_with_upload Sample.slow_worker)
  = [Routes.route_failed Routes.analyze_route (lit "Python process timeout (60s)")]
  /\ Routes.disk_after (Fixtures.analyze_audio (Some Fixtures.upload)
                          Fixtures.disk_with_upload Sample.slow_worker)
     = Fixtures.disk_with_upload.
Proof.
  exact (proj1 (failed_call_keeps_upload Fixtures.JSON_parse Sample.dir
                  Routes.analyze_route Fixtures.upload Fixtures.disk_with_upload
                  [] [] 0 eq_refl eq_refl)
           Sample.slow_worker eq_refl).
Defined.

Lemma resolved_call_removes_upload_witness :
  Routes.disk_after (Fixtures.ai_mastering (Some Fixtures.upload)
                       Fixtures.disk_with_upload Fixtures.mastering_run)
  !! Fixtures.upload = None.
Proof.
  exact (proj1 (proj2 (resolved_call_removes_upload Fixtures.JSON_parse Sample.dir
                         Routes.mastering_route Fixtures.upload
                         Fixtures.disk_with_upload
                         (Fixtures.prints (lit "MASTER")) [] 30
                         Fixtures.master_result eq_refl eq_refl eq_refl))).
Defined.

Lemma cors_reflects_only_localhost_witness :
  Routes.allow_origin
    (Routes.cors None (Some (lit "http://localhost:" ++ lit "3000")) (lit "GET"))
  = Some (lit "http://localhost:" ++ lit "3000")
  /\ Routes.allow_origin
       (Routes.cors None (Some (lit "http://localhost:3000.evil.example"))
          (lit "GET"))
     = Some (Routes.FRONTEND_URL None)
  /\ Routes.next (Routes.cors None None (lit "OPTIONS")) = false.
Proof.
  split; [|split].
  - refine (proj1 (cors_reflects_only_localhost None
                     (Some (lit "http://localhost:" ++ lit "3000")) (lit "GET"))
              (lit "3000") _ eq_refl eq_refl). discriminate.
  - refine (proj1 (proj2 (cors_reflects_only_localhost None
                            (Some (lit "http://localhost:3000.evil.example"))
                            (lit "GET"))) _).
    intros port H. cbv in H. injection H as <-. right. reflexivity.
  - exact (proj2 (proj1 (proj2 (proj2 (cors_reflects_only_localhost None None
                                         (lit "OPTIONS")))) eq_refl)).
Defined.

Lemma lyrics_refund_exactly_once_witness :
  Studio.refunds
    (Studio.handleGenerateLyrics Sample.JSON_parse Fixtures.render (lit "sun")
       (Some (Client.Responded 500 (lit "{}")))) = 1%nat
  /\ (forall c,
        Studio.credits_after
          (Studio.handleGenerateLyrics Sample.JSON_parse Fixtures.render (lit "sun")
             (Some (Client.Responded 500 (lit "{}")))) c = c)
  /\ forall c,
       Studio.credits_after
         (Studio.handleGenerateLyrics Sample.JSON_parse Fixtures.render (lit "sun")
            None) c = c - 1.
Proof.
  split; [|split].
  - exact (proj1 (proj1 (proj2 (proj2 (lyrics_refund_exactly_once Sample.JSON_parse
             Fixtures.render (lit "sun") (Some (Client.Responded 500 (lit "{}")))
             eq_refl ltac:(vm_compute; discriminate))))
             (Client.Responded 500 (lit "{}"))
             {| Client.name := lit "Error";
                Client.message := lit "Lyrics API error" |}
             eq_refl eq_refl)).
  - exact (proj1 (proj2 (proj2 (proj1 (proj2 (proj2 (lyrics_refund_exactly_once
             Sample.JSON_parse Fixtures.render (lit "sun")
             (Some (Client.Responded 500 (lit "{}")))
             eq_refl ltac:(vm_compute; discriminate))))
             (Client.Responded 500 (lit "{}"))
             {| Client.name := lit "Error";
                Client.message := lit "Lyrics API error" |}
             eq_refl eq_refl)))).
  - exact (proj2 (proj2 (proj1 (proj2 (lyrics_refund_exactly_once Sample.JSON_parse
             Fixtures.render (lit "sun") None
             eq_refl ltac:(vm_compute; discriminate))) eq_refl))).
Defined.


Lemma debit_stands_iff_server_answers_200_witness :
  Client.count Client.is_refund
    (Client.handleCreateSongFromLyrics
       (Fixtures.reads (wire (body Fixtures.song_answer)))
       Fixtures.atob Sample.createObjectURL Fixtures.render 0
       [(700, Client.Responded 200 (lit "song"))]) = 0%nat
  /\ Client.count Client.is_refund
       (Client.handleCreateSongFromLyrics
          (Fixtures.reads (wire (body (synthesis_failed_response (lit "boom")))))
          Fixtures.atob Sample.createObjectURL Fixtures.render 0
          [(700, Client.Responded 500 (lit "failure"))]) = 1%nat.
Proof.
  split.
  - refine (proj1 (debit_stands_iff_server_answers_200 Sample.JSON_parse
             Sample.toBase64 Sample.dir Sample.unlink_fails
             (Fixtures.reads (wire (body Fixtures.song_answer)))
             Fixtures.atob Sample.createObjectURL Fixtures.render 0
             Sample.disk_with_song Sample.fast_worker Fixtures.song_answer 700
             (lit "song") [] eq_refl _ _ _ eq_refl eq_refl));
      [vm_compute; discriminate | discriminate | vm_compute; reflexivity].
  - refine (proj1 (debit_stands_iff_server_answers_200 Sample.JSON_parse
             Sample.toBase64 Sample.dir Sample.unlink_fails
             (Fixtures.reads (wire (body (synthesis_failed_response (lit "boom")))))
             Fixtures.atob Sample.createObjectURL Fixtures.render 0
             Sample.disk_with_song Sample.crashing_worker
             (synthesis_failed_response (lit "boom")) 700
             (lit "failure") [] eq_refl _ _ _ eq_refl eq_refl));
      [vm_compute; discriminate | discriminate | vm_compute; reflexivity].
Defined.

Lemma mastering_never_succeeds_witness :
  status Fixtures.mastering_answer = 200
  /\ Studio.alerts
       (Studio.handleAIMastering
          (Fixtures.reads (wire (body Fixtures.mastering_answer)))
          (JStr (lit "take1.wav")) true 0 (inr (lit "ID3"))
          (Some (Client.Responded (status Fixtures.mastering_answer) (lit "ok"))))
     = [lit "AI mastering failed"].
Proof.
  split; [reflexivity|].
  refine (proj1 (mastering_never_succeeds Fixtures.JSON_parse Sample.dir
            (Fixtures.reads (wire (body Fixtures.mastering_answer)))
            (Some Fixtures.upload) Fixtures.disk_with_upload Fixtures.mastering_run
            Fixtures.mastering_answer (JStr (lit "take1.wav")) 0 (lit "ID3")
            (lit "ok") eq_refl _ eq_refl)).
  vm_compute. left. reflexivity.
Defined.

Lemma mock_lyrics_cost_a_credit_witness :
  Studio.lyricsResult_after
    (Studio.handleGenerateLyrics
       (Fixtures.reads (wire (body Fixtures.mock_answer)))
       Fixtures.render (lit "sun")
       (Some (Client.Responded (status Fixtures.mock_answer) (lit "mock"))))
    JNull
  = JStr (Routes.mock_lyrics (lit "sun"))
  /\ Studio.credits_after
       (Studio.handleGenerateLyrics
          (Fixtures.reads (wire (body Fixtures.mock_answer)))
          Fixtures.render (lit "sun")
          (Some (Client.Responded (status Fixtures.mock_answer) (lit "mock"))))
       5 = 4.
Proof.
  refine (proj2 (proj1 (mock_lyrics_cost_a_credit Sample.JSON_parse
            (Fixtures.reads (wire (body Fixtures.mock_answer)))
            Fixtures.render (lit "sun") (lit "mock") None
            (Routes.UpstreamThrew []) Fixtures.mock_answer
            eq_refl _ eq_refl eq_refl) eq_refl) JNull 5).
  vm_compute; discriminate.
Defined.

Lemma failed_generation_feeds_compose_witness :
  Client.count Client.is_debit
    (Client.handleCreateSongFromLyrics Sample.JSON_parse Sample.atob
       Sample.createObjectURL
       (Sample.snapshot 5 Studio.generation_error_text (lit "120")) 0
       Sample.net_error) = 1%nat.
Proof.
  refine (proj2 (proj2 (failed_generation_feeds_compose Sample.JSON_parse
            Sample.atob Sample.createObjectURL Fixtures.render
            (Sample.snapshot 5 Studio.generation_error_text (lit "120"))
            (lit "sun") (Client.Responded 500 (lit "{}"))
            {| Client.name := lit "Error";
               Client.message := lit "Lyrics API error" |}
            JNull 0 Sample.net_error eq_refl _ eq_refl eq_refl eq_refl _)));
    vm_compute; discriminate.
Defined.

Lemma mock_purchase_unlocks_witness :
  Studio.credits_after Studio.handleMockPurchase 0 = 50
  /\ fst (Client.useCredit (Sample.snapshot 50 [] []) 2) = true.
Proof.
  split.
  - refine (proj1 (mock_purchase_unlocks Sample.JSON_parse 0
              (Sample.snapshot 50 [] []) (JStr (lit "take1.wav")) 0
              (inl (lit "Failed to fetch")) None
              _ eq_refl eq_refl)). lia.
  - refine (proj1 (proj2 (proj2 (mock_purchase_unlocks Sample.JSON_parse 0
              (Sample.snapshot 50 [] []) (JStr (lit "take1.wav")) 0
              (inl (lit "Failed to fetch")) None
              _ eq_refl eq_refl)))). lia.
Defined.

Lemma typed_tempo_reaches_worker_witness :
  Client.parseInt (lit "-120") = JNum (-120)
  /\ worker_tempo
       (Sample.compose_song
          (Client.compose_body (Sample.snapshot 5 (lit "la") (lit "-120"))
             (Client.lyricsToUse (Sample.snapshot 5 (lit "la") (lit "-120"))))
          Sample.disk_with_song Sample.fast_worker)
     = Some (JStr (lit "-120")).
Proof.
  exact (typed_tempo_reaches_worker Sample.JSON_parse Sample.toBase64
           Sample.dir Sample.unlink_fails
           (Sample.snapshot 5 (lit "la") (lit "-120")) Sample.disk_with_song
           Sample.fast_worker (-120) eq_refl ltac:(vm_compute; discriminate)
           eq_refl).
Defined.

Lemma server_failure_shown_witness :
  In (Client.Alert (lit "Song generation failed: Song generation timeout"))
    (Client.handleCreateSongFromLyrics
       (Fixtures.reads (wire (body timeout_response)))
       Fixtures.atob Sample.createObjectURL Fixtures.render 0
       [(120500, Client.Responded (status timeout_response) (lit "late"))]).
Proof.
  refine (proj1 (server_failure_shown Sample.JSON_parse Sample.toBase64
            Sample.dir Sample.unlink_fails
            (Fixtures.reads (wire (body timeout_response)))
            Fixtures.atob Sample.createObjectURL Fixtures.render 0
            Sample.disk_with_song Sample.slow_worker timeout_response 120500
            (lit "late") [] eq_refl _ _ eq_refl eq_refl) eq_refl);
    [vm_compute; discriminate | vm_compute; reflexivity].
Defined.
